(** * pyhf.infer.mle: maximum-likelihood fits

    A shallow embedding of [src/pyhf/infer/mle.py] ([twice_nll],
    [_validate_fit_inputs], [fit], [fixed_poi_fit]) and the properties of
    that layer: what is validated, what is handed to the optimizer, which
    objects are written.

    Python lists are objects with identity: a caller's list and the list a
    function works on may be the same object.  The embedding therefore keeps
    a store of list objects and passes references, in a small state and
    exception monad.  The model (pdf) and the optimizer are collaborators
    of this module and appear only through their interfaces. *)

From Stdlib Require Import PrimFloat String ZArith.
From Stdlib Require FloatOps FloatAxioms SpecFloat.
From stdpp Require Import list sorting.

(** ** Data *)

(** [bound[0]], [bound[1]]: the two ends of a parameter's interval. *)
Definition bound : Type := float * float.

(** A tensor of the backend, as far as this module looks at it: a sequence
    of floats (the numpy backend's [array([30.77525435])]). *)
Definition tensor : Type := list float.

(** A reference to a list object. *)
Definition loc : Type := nat.

(** Modelled from the spec: the model configuration ([pdf.config]), which is
    not part of this module.  Each field holds what the method of the same
    name returns; [poi_index] is [None] for a model without a POI. *)
Record Config : Type := mkConfig {
  suggested_init : list float;
  suggested_bounds : list bound;
  suggested_fixed : list bool;
  poi_index : option nat
}.

(** Three kinds of list reach this module: parameter values, bounds and
    fixed flags.  A list object is addressed by its position in the store of
    its kind; a new object goes to the end, so a reference is fresh exactly
    when it is not below the length of the store. *)
Record heap : Type := mkHeap {
  float_lists : list (list float);
  bound_lists : list (list bound);
  flag_lists : list (list bool)
}.

(** Modelled from the spec: what the optimizer returns, the best-fit
    parameters and, under [return_fitted_val], the objective there. *)
Inductive result : Type :=
| BestFit (bestfit_pars : tensor)
| BestFitAndVal (bestfit_pars : tensor) (fitted_val : tensor).

Definition bestfit (r : result) : tensor :=
  match r with
  | BestFit p => p
  | BestFitAndVal p _ => p
  end.

(** The exceptions of this layer.  [ValueError] carries the three values its
    message interpolates (index, value, bound); [UnspecifiedPOI] its
    message; [IndexError] is the list assignment out of range;
    [FailedMinimization] stands for what an optimizer raises. *)
Inductive exn : Type :=
| ValueError (par_idx : nat) (v : float) (b : bound)
| UnspecifiedPOI (msg : string)
| IndexError
| FailedMinimization (msg : string).

Inductive outcome (A : Type) : Type :=
| Return (a : A)
| Raise (e : exn).
Arguments Return {A} a.
Arguments Raise {A} e.

(** Modelled from the spec: the model ([pdf]), with its log-density
    [logpdf(pars, data)] and its configuration.  The log-density is code of
    the model: it returns a tensor or raises, and what it does to the heap
    is its own affair. *)
Record Model : Type := mkModel {
  logpdf : tensor -> tensor -> heap -> outcome tensor * heap;
  config : Config
}.

(** ** The objective *)

(** [-2 * t] on a tensor: the backend multiplies every entry by [-2.0]. *)
Definition scale (c : float) (t : tensor) : tensor :=
  map (fun x => (c * x)%float) t.

(** [return -2 * pdf.logpdf(pars, data)] *)
Definition twice_nll (pars data : tensor) (pdf : Model) (h : heap)
  : outcome tensor * heap :=
  match logpdf pdf pars data h with
  | (Return t, h') => (Return (scale (-2)%float t), h')
  | (Raise e, h') => (Raise e, h')
  end.

(** ** The store of list objects *)

(** The object a reference points to (no object: no elements). *)
Definition deref {A} (h : list (list A)) (l : loc) : list A :=
  default [] (h !! l).

(** Selecting one kind of list in the heap. *)
Record field (A : Type) : Type := mkField {
  fget : heap -> list (list A);
  fset : list (list A) -> heap -> heap
}.
Arguments fget {A} f h.
Arguments fset {A} f x h.

Definition Floats : field float :=
  mkField float float_lists
    (fun x h => mkHeap x (bound_lists h) (flag_lists h)).
Definition Bounds : field bound :=
  mkField bound bound_lists
    (fun x h => mkHeap (float_lists h) x (flag_lists h)).
Definition Flags : field bool :=
  mkField bool flag_lists
    (fun x h => mkHeap (float_lists h) (bound_lists h) x).

(** [enumerate(xs)] *)
Definition enumerate {A} (xs : list A) : list (nat * A) := imap pair xs.

(** [bound[0] <= value <= bound[1]] *)
Definition within (b : bound) (v : float) : bool :=
  (b.1 <=? v)%float && (v <=? b.2)%float.

(** The list comprehension of [fit]:
    [[(index, init) for index, (init, is_fixed)
      in enumerate(zip(init_pars, fixed_params)) if is_fixed]] *)
Definition pick_fixed (p : nat * (float * bool)) : option (nat * float) :=
  let '(index, (init, is_fixed)) := p in
  if is_fixed then Some (index, init) else None.

Definition fixed_vals_of (init_pars : list float) (fixed_params : list bool)
  : list (nat * float) :=
  omap pick_fixed (enumerate (zip init_pars fixed_params)).

(** The fixed-value pairs in the words of the specification: for each index
    [i] where [m[i]] is true, in ascending order, the pair
    [(i, init_pars[i])] (an index that [init_pars] does not have gives no
    pair). *)
Definition fixed_pairs (m : list bool) (init_pars : list float)
  : list (nat * float) :=
  omap (fun i => if decide (m !! i = Some true)
                 then pair i <$> init_pars !! i
                 else None)
       (seq 0 (length m)).

(** Where the loop of [_validate_fit_inputs] stops: the first index, with
    its value and bound, at which [bound[0] <= value <= bound[1]] is false;
    [None] when there is none among the zipped pairs. *)
Definition first_violation (init_pars : list float) (par_bounds : list bound)
  : option (nat * (float * bound)) :=
  list_find (fun p => within p.2 p.1 = false) (zip init_pars par_bounds).

Section Fit.

(** Keyword arguments are passed through and never looked at. *)
Variable Kwargs : Type.

Definition objective : Type :=
  tensor -> tensor -> Model -> heap -> outcome tensor * heap.

(** [opt.minimize] of the backend in use ([_, opt = get_backend()]): it
    receives the objective, the data, the model, references to the initial
    values and the bounds, the fixed values and the keyword arguments; it
    may read and write the heap, and returns or raises. *)
Variable opt_minimize :
  objective -> tensor -> Model -> loc -> loc -> list (nat * float) ->
  Kwargs -> heap -> outcome result * heap.

(** One call of [opt.minimize], with the heap it started from. *)
Record minimize_call : Type := mkCall {
  c_objective : objective;
  c_data : tensor;
  c_pdf : Model;
  c_init_pars : loc;
  c_par_bounds : loc;
  c_fixed_vals : list (nat * float);
  c_kwargs : Kwargs;
  c_heap : heap
}.

(** The heap and the calls of the optimizer made so far. *)
Record world : Type := mkWorld {
  store : heap;
  calls : list minimize_call
}.

(** *** The monad *)

Definition M (A : Type) : Type := world -> outcome A * world.

Definition ret {A} (a : A) : M A := fun w => (Return a, w).

Definition raise {A} (e : exn) : M A := fun w => (Raise e, w).

Definition bind {A B} (m : M A) (k : A -> M B) : M B :=
  fun w =>
    match m w with
    | (Return a, w') => k a w'
    | (Raise e, w') => (Raise e, w')
    end.

Notation "x <- m ;; k" := (bind m (fun x => k))
  (at level 100, m at next level, right associativity).
Notation "m ;; k" := (bind m (fun _ => k))
  (at level 100, right associativity).

(** [for x in xs: body(x)] *)
Fixpoint for_each {A} (xs : list A) (body : A -> M unit) : M unit :=
  match xs with
  | [] => ret tt
  | x :: xs' => body x ;; for_each xs' body
  end.

(** Reading a list object. *)
Definition read {A} (f : field A) (l : loc) : M (list A) :=
  fun w => (Return (deref (fget f (store w)) l), w).

(** A new list object with the elements [xs]. *)
Definition new_list {A} (f : field A) (xs : list A) : M loc :=
  fun w =>
    let h := fget f (store w) in
    (Return (length h), mkWorld (fset f (h ++ [xs]) (store w)) (calls w)).

(** [l[i] = x]: in place; [IndexError] when [i] is out of range. *)
Definition setitem {A} (f : field A) (l : loc) (i : nat) (x : A) : M unit :=
  fun w =>
    let h := fget f (store w) in
    if decide (i < length (deref h l))
    then (Return tt,
          mkWorld (fset f (<[l := <[i := x]> (deref h l)]> h) (store w))
                  (calls w))
    else (Raise IndexError, w).

(** [[*xs]]: a new list with the elements of [xs]. *)
Definition unpack {A} (f : field A) (l : loc) : M loc :=
  xs <- read f l ;; new_list f xs.

(** [arg or dflt()]: [arg] when it is truthy (a list that is not empty;
    [None] is falsy), otherwise the value of the call [dflt()], which is
    made only then. *)
Definition or_else {A} (f : field A) (arg : option loc) (dflt : M loc)
  : M loc :=
  match arg with
  | None => dflt
  | Some l =>
      xs <- read f l ;;
      match xs with
      | [] => dflt
      | _ :: _ => ret l
      end
  end.

(** [opt.minimize(...)]: the call is recorded, the optimizer runs on the
    heap, and its return value or exception is that of the call. *)
Definition minimize (obj : objective) (data : tensor) (pdf : Model)
    (init_pars par_bounds : loc) (fixed_vals : list (nat * float))
    (kwargs : Kwargs) : M result :=
  fun w =>
    let c := mkCall obj data pdf init_pars par_bounds fixed_vals kwargs
                    (store w) in
    let '(o, h') :=
      opt_minimize obj data pdf init_pars par_bounds fixed_vals kwargs
                   (store w) in
    (o, mkWorld h' (calls w ++ [c])).

(** *** The functions of the module *)

Definition _validate_fit_inputs (init_pars par_bounds fixed_params : loc)
  : M unit :=
  inits <- read Floats init_pars ;;
  bnds <- read Bounds par_bounds ;;
  for_each (enumerate (zip inits bnds))
    (fun '(par_idx, (v, b)) =>
       if negb ((b.1 <=? v)%float && (v <=? b.2)%float)
       then raise (ValueError par_idx v b)
       else ret tt).

Definition fit (data : tensor) (pdf : Model)
    (init_pars par_bounds fixed_params : option loc) (kwargs : Kwargs)
  : M result :=
  init_pars <- or_else Floats init_pars
                 (new_list Floats (suggested_init (config pdf))) ;;
  par_bounds <- or_else Bounds par_bounds
                  (new_list Bounds (suggested_bounds (config pdf))) ;;
  fixed_params <- or_else Flags fixed_params
                    (new_list Flags (suggested_fixed (config pdf))) ;;
  _validate_fit_inputs init_pars par_bounds fixed_params ;;
  inits <- read Floats init_pars ;;
  fixeds <- read Flags fixed_params ;;
  let fixed_vals := fixed_vals_of inits fixeds in
  minimize twice_nll data pdf init_pars par_bounds fixed_vals kwargs.

Definition fixed_poi_fit (poi_val : float) (data : tensor) (pdf : Model)
    (init_pars par_bounds fixed_params : option loc) (kwargs : Kwargs)
  : M result :=
  match poi_index (config pdf) with
  | None =>
      raise (UnspecifiedPOI
               "No POI is defined. A POI is required to fit with a fixed POI."%string)
  | Some poi =>
      src <- or_else Floats init_pars
               (new_list Floats (suggested_init (config pdf))) ;;
      init_pars <- unpack Floats src ;;
      src <- or_else Flags fixed_params
               (new_list Flags (suggested_fixed (config pdf))) ;;
      fixed_params <- unpack Flags src ;;
      setitem Floats init_pars poi poi_val ;;
      setitem Flags fixed_params poi true ;;
      fit data pdf (Some init_pars) par_bounds (Some fixed_params) kwargs
  end.

(** *** What the code above comes to *)

(** The elements of the list that [arg or dflt()] evaluates to, where
    [dflt()] returns a list with the elements [dflt]. *)
Definition or_value {A} (h : list (list A)) (arg : option loc)
    (dflt : list A) : list A :=
  match arg with
  | None => dflt
  | Some l =>
      match deref h l with
      | [] => dflt
      | x :: xs => x :: xs
      end
  end.

(** Every list object of [h] is in [h'], with the same elements. *)
Definition kept {A} (h h' : list (list A)) : Prop :=
  forall l xs, h !! l = Some xs -> h' !! l = Some xs.

Definition preserved (h h' : heap) : Prop :=
  kept (float_lists h) (float_lists h')
  /\ kept (bound_lists h) (bound_lists h')
  /\ kept (flag_lists h) (flag_lists h').

(** The body of [fit] after the three defaults are resolved (from the call
    of [_validate_fit_inputs] on), on the resolved references. *)
Definition fit_resolved (data : tensor) (pdf : Model)
    (init_pars par_bounds fixed_params : loc) (kwargs : Kwargs)
  : M result :=
  _validate_fit_inputs init_pars par_bounds fixed_params ;;
  inits <- read Floats init_pars ;;
  fixeds <- read Flags fixed_params ;;
  let fixed_vals := fixed_vals_of inits fixeds in
  minimize twice_nll data pdf init_pars par_bounds fixed_vals kwargs.

(** The exception a computation raises without having called the optimizer,
    if it does so. *)
Definition rejected {A} (m : M A) (w : world) : option exn :=
  match m w with
  | (Raise e, w') =>
      if decide (length (calls w') = length (calls w)) then Some e else None
  | (Return _, _) => None
  end.

(** The optimizer, run on [twice_nll] with this data, model and keyword
    arguments, leaves the list objects it finds as they are: it reads its
    arguments and writes to none of them. *)
Definition keeps_lists (data : tensor) (pdf : Model) (kwargs : Kwargs)
  : Prop :=
  forall li lb fv h,
    preserved h (opt_minimize twice_nll data pdf li lb fv kwargs h).2.

(** Modelled from the spec: how the optimizer, which is not part of this
    module, treats the fixed values.  "The optimizer must treat listed
    indices as immutable at exactly the given value": a parameter listed in
    [fixed_vals], with the value its initial parameter has, has that value
    in the best-fit parameters. *)
Definition holds_fixed : Prop :=
  forall obj data pdf li lb fv kwargs h r h',
    opt_minimize obj data pdf li lb fv kwargs h = (Return r, h') ->
    (forall i x, (i, x) ∈ fv -> deref (float_lists h) li !! i = Some x) ->
    forall i x, (i, x) ∈ fv -> bestfit r !! i = Some x.

End Fit.

Arguments mkCall {Kwargs}.
Arguments mkWorld {Kwargs}.
Arguments store {Kwargs}.
Arguments calls {Kwargs}.
Arguments c_objective {Kwargs}.
Arguments c_data {Kwargs}.
Arguments c_pdf {Kwargs}.
Arguments c_init_pars {Kwargs}.
Arguments c_par_bounds {Kwargs}.
Arguments c_fixed_vals {Kwargs}.
Arguments c_kwargs {Kwargs}.
Arguments c_heap {Kwargs}.
Arguments ret {Kwargs A}.
Arguments raise {Kwargs A}.
Arguments bind {Kwargs A B}.
Arguments for_each {Kwargs A}.
Arguments read {Kwargs A}.
Arguments new_list {Kwargs A}.
Arguments setitem {Kwargs A}.
Arguments unpack {Kwargs A}.
Arguments or_else {Kwargs A}.
Arguments minimize {Kwargs}.
Arguments _validate_fit_inputs {Kwargs}.
Arguments fit {Kwargs}.
Arguments fixed_poi_fit {Kwargs}.
Arguments fit_resolved {Kwargs}.
Arguments rejected {Kwargs A}.
Arguments keeps_lists {Kwargs}.
Arguments holds_fixed {Kwargs}.

(** ** A small instance

    A model with three parameters, the first of which is the POI, and an
    optimizer that stops where it starts: its best-fit parameters are the
    initial values, with the objective there when [return_fitted_val] is
    set.  The keyword arguments are that one flag. *)

Definition toy_config : Config :=
  mkConfig [1; 1; 1]%float
           [(0, 10); (0, 10); (0, 10)]%float
           [false; false; false]
           (Some 0).

Definition toy_model : Model :=
  mkModel (fun pars data h =>
             (Return [foldr PrimFloat.add 0%float
                            (zip_with PrimFloat.mul pars data)], h))
          toy_config.

Definition no_poi_model : Model :=
  mkModel (logpdf toy_model)
          (mkConfig [1; 1]%float [(0, 10); (0, 10)]%float [false; false] None).

Definition toy_minimize (obj : objective) (data : tensor) (pdf : Model)
    (li lb : loc) (fv : list (nat * float)) (return_fitted_val : bool)
    (h : heap) : outcome result * heap :=
  let pars := deref (float_lists h) li in
  if return_fitted_val then
    match obj pars data pdf h with
    | (Return fitted_val, h') => (Return (BestFitAndVal pars fitted_val), h')
    | (Raise e, h') => (Raise e, h')
    end
  else (Return (BestFit pars), h).


(** An optimizer that works in place: it leaves zeros in the list of initial
    values it was given, and returns what the list held. *)
Definition in_place_minimize (obj : objective) (data : tensor) (pdf : Model)
    (li lb : loc) (fv : list (nat * float)) (return_fitted_val : bool)
    (h : heap) : outcome result * heap :=
  let pars := deref (float_lists h) li in
  (Return (BestFit pars),
   mkHeap (<[li := replicate (length pars) 0%float]> (float_lists h))
          (bound_lists h) (flag_lists h)).

(** A caller that holds one list of each kind. *)
Definition caller_heap : heap :=
  mkHeap [[0.5; 1; 1]%float] [[(0, 10); (0, 10); (0, 10)]%float]
         [[false; true; false]].

(** A caller whose second initial value is outside its bound and fixed. *)
Definition bad_heap : heap :=
  mkHeap [[0.5; 11; -1]%float] [[(0, 10); (0, 10); (0, 10)]%float]
         [[false; true; false]].

(** A caller that holds empty lists. *)
Definition empties_heap : heap := mkHeap [[]] [[]] [[]].

(** Callers that hold one empty list, of one kind, beside two lists that are
    not empty. *)
Definition empty_init_heap : heap :=
  mkHeap [[]] [[(0, 10); (0, 10); (0, 10)]%float] [[false; true; false]].

Definition empty_bounds_heap : heap :=
  mkHeap [[0.5; 1; 1]%float] [[]] [[false; true; false]].

Definition empty_fixed_heap : heap :=
  mkHeap [[0.5; 1; 1]%float] [[(0, 10); (0, 10); (0, 10)]%float] [[]].

Definition toy_data : tensor := [51; 48; 1]%float.

(** The heap of [caller_heap] after [fixed_poi_fit] has made its two lists
    for the POI value 2.5, and the call of the optimizer it then makes. *)
Definition pinned_heap : heap :=
  mkHeap [[0.5; 1; 1]; [2.5; 1; 1]]%float
         [[(0, 10); (0, 10); (0, 10)]%float]
         [[false; true; false]; [true; true; false]].

Definition pinned_call : minimize_call bool :=
  mkCall twice_nll toy_data toy_model 1 0 [(0, 2.5%float); (1, 1%float)]
         false pinned_heap.

(** A model whose POI index is beyond its three parameters. *)
Definition far_poi_model : Model :=
  mkModel (logpdf toy_model)
          (mkConfig [1; 1; 1]%float [(0, 10); (0, 10); (0, 10)]%float
                    [false; false; false] (Some 3)).

(** ** The objective function *)

(** C1: for every parameter vector [p], data [d] and model, [twice_nll]
    returns exactly [-2 * logpdf(p, d)]: the tensor the log-density returns
    with every entry multiplied by [-2.0], of the same shape.  It has no
    effect of its own: the heap after it is the heap after the log-density,
    and what the log-density raises is raised as it is. *)
Theorem twice_nll_exact (p d : tensor) (model : Model) (h : heap) :
  (twice_nll p d model h).2 = (logpdf model p d h).2
  /\ match (logpdf model p d h).1 with
     | Return t =>
         (twice_nll p d model h).1 = Return (scale (-2)%float t)
         /\ length (scale (-2)%float t) = length t
         /\ forall i, scale (-2)%float t !! i
                      = (fun x => (-2 * x)%float) <$> t !! i
     | Raise e => (twice_nll p d model h).1 = Raise e
     end.
Proof.
  unfold twice_nll. destruct (logpdf model p d h) as [[t|e] h']; cbn.
  - split; [reflexivity|]. split; [reflexivity|]. unfold scale. split.
    + apply length_map.
    + intros i. apply list_lookup_fmap.
  - split; reflexivity.
Qed.

(** ** Facts *)

Section Facts.

Context {Kwargs : Type}.

Variable opt :
  objective -> tensor -> Model -> loc -> loc -> list (nat * float) ->
  Kwargs -> heap -> outcome result * heap.

Implicit Types (w : world Kwargs) (l li lb lf : loc).
Implicit Types (arg ip pb fp : option loc) (kw : Kwargs).

(** *** List objects that stay *)

Lemma kept_refl {A} (h : list (list A)) : kept h h.
Proof. intros l xs H. exact H. Qed.

Lemma kept_trans {A} (h1 h2 h3 : list (list A)) :
  kept h1 h2 -> kept h2 h3 -> kept h1 h3.
Proof. intros H12 H23 l xs H. apply H23, H12, H. Qed.

Lemma kept_alloc {A} (h : list (list A)) (xs : list A) : kept h (h ++ [xs]).
Proof. intros l ys H. apply lookup_app_l_Some, H. Qed.

Lemma kept_length {A} (h h' : list (list A)) : kept h h' -> length h <= length h'.
Proof.
  intros K. destruct (decide (length h = 0)) as [->|Hn]; [lia|].
  destruct (lookup_lt_is_Some_2 h (length h - 1)) as [xs Hxs]; [lia|].
  apply K, lookup_lt_Some in Hxs. lia.
Qed.

Lemma kept_write_fresh {A} (h0 h : list (list A)) (l : loc) (xs : list A) :
  kept h0 h -> length h0 <= l -> kept h0 (<[l := xs]> h).
Proof.
  intros K Hl j ys H. rewrite list_lookup_insert_ne.
  - apply K, H.
  - apply lookup_lt_Some in H. lia.
Qed.

Lemma preserved_refl (h : heap) : preserved h h.
Proof. repeat split; apply kept_refl. Qed.

Lemma preserved_trans (h1 h2 h3 : heap) :
  preserved h1 h2 -> preserved h2 h3 -> preserved h1 h3.
Proof.
  intros (A1 & B1 & C1) (A2 & B2 & C2).
  repeat split; eapply kept_trans; eassumption.
Qed.

Lemma deref_lookup {A} (h : list (list A)) (l : loc) (xs : list A) :
  h !! l = Some xs -> deref h l = xs.
Proof. unfold deref. intros ->. reflexivity. Qed.

Lemma deref_alloc {A} (h : list (list A)) (xs : list A) :
  deref (h ++ [xs]) (length h) = xs.
Proof. apply deref_lookup, list_lookup_middle. reflexivity. Qed.

(** *** [arg or dflt()] *)

(** A falsy argument is the same as no argument. *)
Lemma or_else_falsy {A} (f : field A) l (dflt : M Kwargs loc) w :
  fget f (store w) !! l = Some [] ->
  or_else f (Some l) dflt w = or_else f None dflt w.
Proof.
  intros H. unfold or_else, bind, read. cbn.
  rewrite (deref_lookup _ _ _ H). reflexivity.
Qed.

(** The reference [arg or dflt()] yields is that of a list object of the
    resulting store, with the elements [or_value] gives; the store of the
    kind has grown by at most that object. *)
Lemma or_else_store {A} (h : list (list A)) arg (dflt : list A) :
  ∃ l h',
    (match arg with
     | None => (length h, h ++ [dflt])
     | Some l0 => match deref h l0 with
                  | [] => (length h, h ++ [dflt])
                  | _ :: _ => (l0, h)
                  end
     end) = (l, h')
    ∧ h' !! l = Some (or_value h arg dflt)
    ∧ kept h h'.
Proof.
  unfold or_value. destruct arg as [l0|].
  - destruct (deref h l0) as [|x xs] eqn:E.
    + eexists _, _. split; [reflexivity|]. split; [|apply kept_alloc].
      apply list_lookup_middle. reflexivity.
    + eexists _, _. split; [reflexivity|]. split; [|apply kept_refl].
      unfold deref in E. destruct (h !! l0); cbn in E; congruence.
  - eexists _, _. split; [reflexivity|]. split; [|apply kept_alloc].
    apply list_lookup_middle. reflexivity.
Qed.

(** Running [arg or dflt()] on a world taken apart, against the pair [E]
    that [or_else_store] computes. *)
Ltac run_or_else w arg E :=
  destruct w as [[? ? ?] ?]; unfold or_else, bind, read, new_list, ret;
  cbv [Floats Bounds Flags fget fset store calls
       float_lists bound_lists flag_lists] in *;
  destruct arg as [l0|];
  [match goal with |- context [deref ?o l0] => destruct (deref o l0) end|];
  inversion E; subst; reflexivity.

Lemma or_else_floats arg dflt w :
  ∃ l fl,
    or_else Floats arg (new_list Floats dflt) w
    = (Return l, mkWorld (mkHeap fl (bound_lists (store w))
                                    (flag_lists (store w))) (calls w))
    ∧ fl !! l = Some (or_value (float_lists (store w)) arg dflt)
    ∧ kept (float_lists (store w)) fl.
Proof.
  destruct (or_else_store (float_lists (store w)) arg dflt)
    as (l & fl & E & Hl & K).
  exists l, fl. split; [|auto].
  run_or_else w arg E.
Qed.

Lemma or_else_bounds arg dflt w :
  ∃ l bl,
    or_else Bounds arg (new_list Bounds dflt) w
    = (Return l, mkWorld (mkHeap (float_lists (store w)) bl
                                    (flag_lists (store w))) (calls w))
    ∧ bl !! l = Some (or_value (bound_lists (store w)) arg dflt)
    ∧ kept (bound_lists (store w)) bl.
Proof.
  destruct (or_else_store (bound_lists (store w)) arg dflt)
    as (l & bl & E & Hl & K).
  exists l, bl. split; [|auto].
  run_or_else w arg E.
Qed.

Lemma or_else_flags arg dflt w :
  ∃ l gl,
    or_else Flags arg (new_list Flags dflt) w
    = (Return l, mkWorld (mkHeap (float_lists (store w))
                                    (bound_lists (store w)) gl) (calls w))
    ∧ gl !! l = Some (or_value (flag_lists (store w)) arg dflt)
    ∧ kept (flag_lists (store w)) gl.
Proof.
  destruct (or_else_store (flag_lists (store w)) arg dflt)
    as (l & gl & E & Hl & K).
  exists l, gl. split; [|auto].
  run_or_else w arg E.
Qed.

(** *** Validation *)

Lemma first_violation_Some (inits : list float) (bnds : list bound) i v b :
  first_violation inits bnds = Some (i, (v, b)) <->
  inits !! i = Some v /\ bnds !! i = Some b /\ within b v = false
  /\ forall j vj bj, j < i -> inits !! j = Some vj -> bnds !! j = Some bj ->
                    within bj vj = true.
Proof.
  unfold first_violation. rewrite list_find_Some, lookup_zip_Some. cbn.
  split.
  - intros ((Hv & Hb) & Hw & Hmin). repeat split; try assumption.
    intros j vj bj Hj Hvj Hbj.
    specialize (Hmin j (vj, bj)). rewrite lookup_zip_Some in Hmin.
    cbn in Hmin. destruct (within bj vj); [reflexivity|].
    exfalso. apply Hmin; auto.
  - intros (Hv & Hb & Hw & Hmin). repeat split; try assumption.
    intros j [vj bj] Hz Hj. apply lookup_zip_Some in Hz as [Hvj Hbj].
    cbn. rewrite (Hmin j vj bj Hj Hvj Hbj). discriminate.
Qed.

Lemma first_violation_None (inits : list float) (bnds : list bound) :
  first_violation inits bnds = None <->
  forall i v b, inits !! i = Some v -> bnds !! i = Some b -> within b v = true.
Proof.
  unfold first_violation. rewrite list_find_None, Forall_lookup. split.
  - intros H i v b Hv Hb. specialize (H i (v, b)).
    rewrite lookup_zip_Some in H. cbn in H.
    destruct (within b v); [reflexivity|]. exfalso. apply H; auto.
  - intros H i [v b] Hz. apply lookup_zip_Some in Hz as [Hv Hb]. cbn.
    rewrite (H i v b Hv Hb). discriminate.
Qed.

(** A violation anywhere gives a first one, no later. *)
Lemma first_violation_exists (inits : list float) (bnds : list bound) i v b :
  inits !! i = Some v -> bnds !! i = Some b -> within b v = false ->
  exists i0 v0 b0, first_violation inits bnds = Some (i0, (v0, b0)) /\ i0 <= i.
Proof.
  intros Hv Hb Hw.
  destruct (first_violation inits bnds) as [[i0 [v0 b0]]|] eqn:E.
  - exists i0, v0, b0. split; [reflexivity|].
    apply first_violation_Some in E as (_ & _ & _ & Hmin).
    destruct (decide (i0 <= i)) as [|Hn]; [assumption|].
    rewrite (Hmin i v b) in Hw by (assumption || lia). discriminate.
  - rewrite first_violation_None in E. rewrite (E i v b Hv Hb) in Hw.
    discriminate.
Qed.

(** The loop, started at index [k]. *)
Lemma for_each_validate (ps : list (float * bound)) (k : nat) w :
  for_each (imap (fun i => pair (k + i)) ps)
    (fun '(par_idx, (v, b)) =>
       if negb ((b.1 <=? v)%float && (v <=? b.2)%float)
       then raise (ValueError par_idx v b)
       else ret tt) w
  = match list_find (fun p => within p.2 p.1 = false) ps with
    | Some (i, (v, b)) => (Raise (ValueError (k + i) v b), w)
    | None => (Return tt, w)
    end.
Proof.
  revert k. induction ps as [|[v b] ps IH]; intros k; [reflexivity|].
  cbn [imap for_each list_find]. unfold bind at 1.
  change ((b.1 <=? v)%float && (v <=? b.2)%float) with (within b v).
  change (within (v, b).2 (v, b).1) with (within b v).
  destruct (within b v) eqn:W; cbn [negb].
  - rewrite decide_False by discriminate. unfold ret at 1.
    rewrite (imap_ext _ (fun i => pair (S k + i)))
      by (intros; cbn; f_equal; lia).
    rewrite IH.
    destruct (list_find _ ps) as [[i [v' b']]|]; cbn; [|reflexivity].
    repeat f_equal; lia.
  - rewrite decide_True by reflexivity. unfold raise. cbn.
    repeat f_equal; lia.
Qed.

Lemma validate_run li lb lf w :
  _validate_fit_inputs li lb lf w
  = match first_violation (deref (float_lists (store w)) li)
                          (deref (bound_lists (store w)) lb) with
    | Some (i, (v, b)) => (Raise (ValueError i v b), w)
    | None => (Return tt, w)
    end.
Proof.
  unfold _validate_fit_inputs, first_violation, enumerate.
  unfold bind at 1, read at 1. unfold bind at 1, read at 1.
  rewrite (imap_ext pair (fun i => pair (0 + i))) by reflexivity.
  apply for_each_validate.
Qed.

(** The part of [fit] that follows the defaults. *)
Lemma fit_resolved_run data pdf li lb lf kw w :
  fit_resolved opt data pdf li lb lf kw w
  = match first_violation (deref (float_lists (store w)) li)
                          (deref (bound_lists (store w)) lb) with
    | Some (i, (v, b)) => (Raise (ValueError i v b), w)
    | None =>
        minimize opt twice_nll data pdf li lb
          (fixed_vals_of (deref (float_lists (store w)) li)
                         (deref (flag_lists (store w)) lf)) kw w
    end.
Proof.
  unfold fit_resolved. unfold bind at 1. rewrite validate_run.
  destruct (first_violation _ _) as [[i [v b]]|]; reflexivity.
Qed.

(** *** [fit], as far as its defaults *)

(** [fit] resolves its three arguments and goes on as [fit_resolved] on
    references to list objects that hold the resolved values; until then no
    list object is written and the optimizer is not called. *)
Lemma fit_run data pdf ip pb fp kw w :
  exists li lb lf h1,
    fit opt data pdf ip pb fp kw w
    = fit_resolved opt data pdf li lb lf kw (mkWorld h1 (calls w))
    /\ float_lists h1 !! li
       = Some (or_value (float_lists (store w)) ip
                        (suggested_init (config pdf)))
    /\ bound_lists h1 !! lb
       = Some (or_value (bound_lists (store w)) pb
                        (suggested_bounds (config pdf)))
    /\ flag_lists h1 !! lf
       = Some (or_value (flag_lists (store w)) fp
                        (suggested_fixed (config pdf)))
    /\ preserved (store w) h1.
Proof.
  destruct (or_else_floats ip (suggested_init (config pdf)) w)
    as (li & fl & E1 & H1 & K1).
  set (w1 := mkWorld _ _) in E1.
  destruct (or_else_bounds pb (suggested_bounds (config pdf)) w1)
    as (lb & bl & E2 & H2 & K2).
  set (w2 := mkWorld _ _) in E2.
  destruct (or_else_flags fp (suggested_fixed (config pdf)) w2)
    as (lf & gl & E3 & H3 & K3).
  exists li, lb, lf, (mkHeap fl bl gl).
  split; [|repeat split; assumption].
  change (fit opt data pdf ip pb fp kw)
    with (bind (or_else Floats ip
                  (new_list Floats (suggested_init (config pdf))))
            (fun li => bind (or_else Bounds pb
                               (new_list Bounds (suggested_bounds (config pdf))))
            (fun lb => bind (or_else Flags fp
                               (new_list Flags (suggested_fixed (config pdf))))
            (fun lf => fit_resolved opt data pdf li lb lf kw)))).
  unfold bind at 1. rewrite E1.
  unfold bind at 1. rewrite E2.
  unfold bind at 1. rewrite E3.
  reflexivity.
Qed.

(** C2: when some resolved initial value lies outside its resolved bound
    (not [bound[0] <= value <= bound[1]]), [fit] raises the [ValueError] of
    [_validate_fit_inputs] with the index, the value and the bound of the
    first such index; the optimizer has not been called, and every list
    object is as it was: nothing is clamped. *)
Theorem fit_rejects_out_of_bounds data pdf ip pb fp kw w i v b :
  let inits := or_value (float_lists (store w)) ip
                        (suggested_init (config pdf)) in
  let bnds := or_value (bound_lists (store w)) pb
                       (suggested_bounds (config pdf)) in
  inits !! i = Some v -> bnds !! i = Some b -> within b v = false ->
  exists i0 v0 b0 w',
    fit opt data pdf ip pb fp kw w = (Raise (ValueError i0 v0 b0), w')
    /\ inits !! i0 = Some v0 /\ bnds !! i0 = Some b0
    /\ within b0 v0 = false
    /\ i0 <= i
    /\ (forall j vj bj, j < i0 -> inits !! j = Some vj ->
                        bnds !! j = Some bj -> within bj vj = true)
    /\ calls w' = calls w
    /\ preserved (store w) (store w').
Proof.
  intros inits bnds Hv Hb Hw.
  destruct (fit_run data pdf ip pb fp kw w)
    as (li & lb & lf & h1 & E & Hi & Hbn & _ & P).
  destruct (first_violation_exists inits bnds i v b Hv Hb Hw)
    as (i0 & v0 & b0 & F & Hle).
  exists i0, v0, b0, (mkWorld h1 (calls w)).
  rewrite E, fit_resolved_run. cbn [store calls].
  rewrite (deref_lookup _ _ _ Hi), (deref_lookup _ _ _ Hbn).
  fold inits bnds. rewrite F.
  apply first_violation_Some in F as (F1 & F2 & F3 & F4).
  repeat split; try assumption; apply P.
Qed.

(** C6: each of the three arguments that the caller leaves out is filled
    from the model ([suggested_init()], [suggested_bounds()],
    [suggested_fixed()]), and each on its own: what one argument resolves
    to depends on that argument alone.  [fit] then validates and fits on
    exactly these lists. *)
Theorem fit_defaults data pdf ip pb fp kw w :
  exists li lb lf h1,
    fit opt data pdf ip pb fp kw w
    = fit_resolved opt data pdf li lb lf kw (mkWorld h1 (calls w))
    /\ preserved (store w) h1
    /\ float_lists h1 !! li
       = Some (match ip with
               | None => suggested_init (config pdf)
               | Some l => or_value (float_lists (store w)) (Some l)
                                    (suggested_init (config pdf))
               end)
    /\ bound_lists h1 !! lb
       = Some (match pb with
               | None => suggested_bounds (config pdf)
               | Some l => or_value (bound_lists (store w)) (Some l)
                                    (suggested_bounds (config pdf))
               end)
    /\ flag_lists h1 !! lf
       = Some (match fp with
               | None => suggested_fixed (config pdf)
               | Some l => or_value (flag_lists (store w)) (Some l)
                                    (suggested_fixed (config pdf))
               end).
Proof.
  destruct (fit_run data pdf ip pb fp kw w)
    as (li & lb & lf & h1 & E & Hi & Hb & Hf & P).
  exists li, lb, lf, h1. split; [exact E|]. split; [exact P|].
  split; [destruct ip; exact Hi|]. split; [destruct pb; exact Hb|].
  destruct fp; exact Hf.
Qed.

(** C8: when every resolved initial value is within its bound, [fit] is the
    one call of the optimizer, on [twice_nll], the data, the model,
    references to the resolved initial values and bounds, the fixed values
    and the keyword arguments: what the optimizer returns is returned, what
    it raises is raised, and the heap is as the optimizer leaves it. *)
Theorem fit_is_the_optimizer_call data pdf ip pb fp kw w :
  let inits := or_value (float_lists (store w)) ip
                        (suggested_init (config pdf)) in
  let bnds := or_value (bound_lists (store w)) pb
                       (suggested_bounds (config pdf)) in
  let fixeds := or_value (flag_lists (store w)) fp
                         (suggested_fixed (config pdf)) in
  (forall i v b, inits !! i = Some v -> bnds !! i = Some b ->
                 within b v = true) ->
  exists li lb h1,
    float_lists h1 !! li = Some inits
    /\ bound_lists h1 !! lb = Some bnds
    /\ preserved (store w) h1
    /\ fit opt data pdf ip pb fp kw w
       = ((opt twice_nll data pdf li lb (fixed_vals_of inits fixeds) kw h1).1,
          mkWorld
            (opt twice_nll data pdf li lb (fixed_vals_of inits fixeds) kw h1).2
            (calls w ++ [mkCall twice_nll data pdf li lb
                                (fixed_vals_of inits fixeds) kw h1])).
Proof.
  intros inits bnds fixeds Hok.
  destruct (fit_run data pdf ip pb fp kw w)
    as (li & lb & lf & h1 & E & Hi & Hb & Hf & P).
  exists li, lb, h1. repeat split; try assumption; try apply P.
  rewrite E, fit_resolved_run. cbn [store calls].
  rewrite (deref_lookup _ _ _ Hi), (deref_lookup _ _ _ Hb),
    (deref_lookup _ _ _ Hf).
  fold inits bnds fixeds.
  apply first_violation_None in Hok. rewrite Hok.
  unfold minimize. cbn [store calls].
  destruct (opt twice_nll data pdf li lb _ kw h1) as [o h']. reflexivity.
Qed.

(** C10: whether [fit] raises before the optimizer is called, and with which
    exception, is the same for any two fixed masks; and an initial value
    outside its bound is rejected also when its parameter is fixed. *)
Theorem validation_ignores_fixed data pdf ip pb fp1 fp2 kw w :
  rejected (fit opt data pdf ip pb fp1 kw) w
  = rejected (fit opt data pdf ip pb fp2 kw) w
  /\ forall i v b,
      or_value (float_lists (store w)) ip (suggested_init (config pdf)) !! i
      = Some v ->
      or_value (bound_lists (store w)) pb (suggested_bounds (config pdf)) !! i
      = Some b ->
      or_value (flag_lists (store w)) fp1 (suggested_fixed (config pdf)) !! i
      = Some true ->
      within b v = false ->
      exists i0 v0 b0,
        rejected (fit opt data pdf ip pb fp1 kw) w
        = Some (ValueError i0 v0 b0).
Proof.
  assert (R : forall fp,
    rejected (fit opt data pdf ip pb fp kw) w
    = match first_violation
              (or_value (float_lists (store w)) ip
                        (suggested_init (config pdf)))
              (or_value (bound_lists (store w)) pb
                        (suggested_bounds (config pdf))) with
      | Some (i, (v, b)) => Some (ValueError i v b)
      | None => None
      end).
  { intros fp.
    destruct (fit_run data pdf ip pb fp kw w)
      as (li & lb & lf & h1 & E & Hi & Hb & _ & _).
    unfold rejected. rewrite E, fit_resolved_run. cbn [store calls].
    rewrite (deref_lookup _ _ _ Hi), (deref_lookup _ _ _ Hb).
    destruct (first_violation _ _) as [[i [v b]]|].
    - cbn [calls]. rewrite decide_True by reflexivity. reflexivity.
    - unfold minimize. cbn [store calls].
      destruct (opt _ _ _ _ _ _ _ _) as [[r|e] h']; [reflexivity|].
      cbn [calls]. rewrite decide_False; [reflexivity|].
      rewrite length_app. cbn. lia. }
  split.
  - rewrite !R. reflexivity.
  - intros i v b Hv Hb _ Hw. rewrite R.
    destruct (first_violation_exists _ _ i v b Hv Hb Hw)
      as (i0 & v0 & b0 & F & _).
    exists i0, v0, b0. rewrite F. reflexivity.
Qed.

(** *** The fixed values *)

Lemma omap_ext_elem {A B} (f g : A -> option B) (xs : list A) :
  (forall x, x ∈ xs -> f x = g x) -> omap f xs = omap g xs.
Proof.
  induction xs as [|x xs IH]; intros H; [reflexivity|]. cbn.
  rewrite (H x) by left. rewrite IH; [reflexivity|].
  intros y Hy. apply H. right. exact Hy.
Qed.

Lemma omap_none {A B} (f : A -> option B) (xs : list A) :
  (forall x, x ∈ xs -> f x = None) -> omap f xs = [].
Proof.
  induction xs as [|x xs IH]; intros H; [reflexivity|]. cbn.
  rewrite (H x) by left. apply IH. intros y Hy. apply H. right. exact Hy.
Qed.

(** The comprehension on lists that start at index [k]. *)
Lemma fixed_vals_from (m : list bool) (inits : list float) (k : nat) :
  omap pick_fixed (imap (fun i => pair (k + i)) (zip inits m))
  = omap (fun i => if decide (m !! (i - k) = Some true)
                   then pair i <$> inits !! (i - k)
                   else None)
         (seq k (length m)).
Proof.
  revert inits k. induction m as [|b m IH]; intros inits k.
  - rewrite zip_with_nil_r. reflexivity.
  - destruct inits as [|x xs].
    + cbn [zip_with imap omap]. symmetry. apply omap_none.
      intros i _. rewrite lookup_nil. cbn. case_decide; reflexivity.
    + change (zip (x :: xs) (b :: m)) with ((x, b) :: zip xs m).
      cbn [length seq]. rewrite imap_cons. cbn [omap list_omap].
      replace (k - k) with 0 by lia. cbn [lookup list_lookup].
      rewrite (imap_ext _ (fun i => pair (S k + i)))
        by (intros; cbn; f_equal; lia).
      rewrite IH.
      rewrite (omap_ext_elem
                 (fun i => if decide ((b :: m) !! (i - k) = Some true)
                           then pair i <$> (x :: xs) !! (i - k) else None)
                 (fun i => if decide (m !! (i - S k) = Some true)
                           then pair i <$> xs !! (i - S k) else None)).
      * unfold pick_fixed. replace (k + 0) with k by lia.
        destruct b; cbn.
        -- rewrite decide_True by reflexivity. reflexivity.
        -- rewrite decide_False by discriminate. reflexivity.
      * intros i Hi. apply elem_of_seq in Hi.
        replace (i - k) with (S (i - S k)) by lia. reflexivity.
Qed.

Lemma fixed_vals_of_pairs (inits : list float) (m : list bool) :
  fixed_vals_of inits m = fixed_pairs m inits.
Proof.
  unfold fixed_vals_of, fixed_pairs, enumerate.
  rewrite (imap_ext pair (fun i => pair (0 + i))) by reflexivity.
  rewrite fixed_vals_from. apply omap_ext_elem. intros i _.
  replace (i - 0) with i by lia. reflexivity.
Qed.

Lemma elem_of_fixed_vals (inits : list float) (m : list bool) i x :
  (i, x) ∈ fixed_vals_of inits m <-> m !! i = Some true /\ inits !! i = Some x.
Proof.
  unfold fixed_vals_of, enumerate. rewrite list_elem_of_omap. split.
  - intros ([j [y b]] & Hin & Hf).
    apply elem_of_lookup_imap in Hin as (j' & [y' b'] & Heq & Hz).
    injection Heq as -> -> ->. apply lookup_zip_Some in Hz as [Hy Hb].
    unfold pick_fixed in Hf. destruct b'; [|discriminate].
    injection Hf as -> ->. split; assumption.
  - intros [Hm Hx]. exists (i, (x, true)). split; [|reflexivity].
    apply elem_of_lookup_imap. exists i, (x, true). split; [reflexivity|].
    apply lookup_zip_Some. split; assumption.
Qed.

Lemma fixed_vals_sorted_from (ps : list (float * bool)) (k : nat) :
  StronglySorted (fun p q : nat * float => p.1 < q.1)
    (omap pick_fixed (imap (fun i => pair (k + i)) ps)).
Proof.
  revert k. induction ps as [|[x b] ps IH]; intros k; [constructor|].
  rewrite imap_cons. cbn [omap list_omap].
  rewrite (imap_ext _ (fun i => pair (S k + i)))
    by (intros; cbn; f_equal; lia).
  unfold pick_fixed at 1. destruct b; [|apply IH].
  constructor; [apply IH|]. apply Forall_forall. intros [j y] Hin.
  apply list_elem_of_omap in Hin as ([j' [y' b']] & Hin & Hf).
  apply elem_of_lookup_imap in Hin as (n & [y'' b''] & Heq & _).
  injection Heq as -> -> ->. unfold pick_fixed in Hf.
  destruct b''; [|discriminate]. injection Hf as <- <-. cbn. lia.
Qed.

Lemma fixed_vals_sorted (inits : list float) (m : list bool) :
  StronglySorted (fun p q : nat * float => p.1 < q.1) (fixed_vals_of inits m).
Proof.
  unfold fixed_vals_of, enumerate.
  rewrite (imap_ext pair (fun i => pair (0 + i))) by reflexivity.
  apply (fixed_vals_sorted_from (zip inits m) 0).
Qed.

Lemma fixed_vals_all_false (inits : list float) (n : nat) :
  fixed_vals_of inits (replicate n false) = [].
Proof.
  unfold fixed_vals_of, enumerate. apply omap_none. intros [j [y b]] Hin.
  apply elem_of_lookup_imap in Hin as (j' & [y' b'] & Heq & Hz).
  injection Heq as -> -> ->. apply lookup_zip_Some in Hz as [_ Hb].
  apply lookup_replicate in Hb as [-> _]. reflexivity.
Qed.

Lemma fixed_vals_no_true (inits : list float) (m : list bool) :
  Forall (fun b => b = false) m -> fixed_vals_of inits m = [].
Proof.
  intros Hm. unfold fixed_vals_of, enumerate. apply omap_none.
  intros [j [y b]] Hin.
  apply elem_of_lookup_imap in Hin as (j' & [y' b'] & Heq & Hz).
  injection Heq as -> -> ->. apply lookup_zip_Some in Hz as [_ Hb].
  rewrite (Forall_lookup_1 _ _ _ _ Hm Hb). reflexivity.
Qed.

(** C5: when the resolved initial values are within their bounds, [fit]
    calls the optimizer, and the fixed values of that call are the pairs
    [(i, init_pars[i])] of the indices [i] at which the resolved mask is
    true, in ascending order of [i]: they are the list the specification
    describes, a pair is among them exactly when the mask is true at its
    index and its value is the resolved initial value there, and their
    indices strictly increase.  With a mask that is false everywhere, or
    empty, the call has no fixed value. *)
Theorem fixed_vals_are_the_fixed_pairs data pdf ip pb fp kw w :
  let inits := or_value (float_lists (store w)) ip
                        (suggested_init (config pdf)) in
  let bnds := or_value (bound_lists (store w)) pb
                       (suggested_bounds (config pdf)) in
  let fixeds := or_value (flag_lists (store w)) fp
                         (suggested_fixed (config pdf)) in
  (forall i v b, inits !! i = Some v -> bnds !! i = Some b ->
                 within b v = true) ->
  exists c,
    calls (fit opt data pdf ip pb fp kw w).2 = calls w ++ [c]
    /\ c_fixed_vals c = fixed_pairs fixeds inits
    /\ (forall i x, (i, x) ∈ c_fixed_vals c
                    <-> fixeds !! i = Some true /\ inits !! i = Some x)
    /\ StronglySorted (fun p q : nat * float => p.1 < q.1) (c_fixed_vals c)
    /\ (Forall (fun b => b = false) fixeds -> c_fixed_vals c = []).
Proof.
  intros inits bnds fixeds Hok.
  destruct (fit_run data pdf ip pb fp kw w)
    as (li & lb & lf & h1 & E & Hi & Hb & Hf & P).
  rewrite E, fit_resolved_run. cbn [store calls].
  rewrite (deref_lookup _ _ _ Hi), (deref_lookup _ _ _ Hb),
    (deref_lookup _ _ _ Hf).
  fold inits bnds fixeds.
  apply first_violation_None in Hok. rewrite Hok.
  unfold minimize. cbn [store calls].
  destruct (opt _ _ _ _ _ _ _ _) as [o h']. cbn [snd calls].
  eexists. split; [reflexivity|]. cbn [c_fixed_vals].
  split; [apply fixed_vals_of_pairs|].
  split; [apply elem_of_fixed_vals|].
  split; [apply fixed_vals_sorted|].
  apply fixed_vals_no_true.
Qed.

(** *** [fixed_poi_fit] *)

(** With a POI, [fixed_poi_fit] copies the resolved initial values and the
    resolved mask into two new list objects, writes to these two, and calls
    [fit] on them and on its own [par_bounds]. *)
Lemma fixed_poi_fit_run v data pdf ip fp kw w poi :
  poi_index (config pdf) = Some poi ->
  let inits := or_value (float_lists (store w)) ip
                        (suggested_init (config pdf)) in
  let fixeds := or_value (flag_lists (store w)) fp
                         (suggested_fixed (config pdf)) in
  exists fl gl li lf,
    kept (float_lists (store w)) fl /\ kept (flag_lists (store w)) gl
    /\ fl !! li = Some inits /\ gl !! lf = Some fixeds
    /\ length (float_lists (store w)) <= li
    /\ length (flag_lists (store w)) <= lf
    /\ forall pb,
        fixed_poi_fit opt v data pdf ip pb fp kw w
        = if decide (poi < length inits) then
            if decide (poi < length fixeds) then
              fit opt data pdf (Some li) pb (Some lf) kw
                (mkWorld (mkHeap (<[li := <[poi := v]> inits]> fl)
                                 (bound_lists (store w))
                                 (<[lf := <[poi := true]> fixeds]> gl))
                         (calls w))
            else
              (Raise IndexError,
               mkWorld (mkHeap (<[li := <[poi := v]> inits]> fl)
                               (bound_lists (store w)) gl) (calls w))
          else
            (Raise IndexError,
             mkWorld (mkHeap fl (bound_lists (store w)) gl) (calls w)).
Proof.
  intros Hpoi inits fixeds.
  destruct (or_else_floats ip (suggested_init (config pdf)) w)
    as (src & fl0 & E1 & H1 & K1).
  fold inits in H1. set (w1 := mkWorld _ _) in E1.
  destruct (or_else_flags fp (suggested_fixed (config pdf))
              (mkWorld (mkHeap (fl0 ++ [inits]) (bound_lists (store w))
                               (flag_lists (store w))) (calls w)))
    as (srcf & gl0 & E2 & H2 & K2).
  cbn [store calls float_lists bound_lists flag_lists] in E2, H2, K2.
  fold fixeds in H2.
  exists (fl0 ++ [inits]), (gl0 ++ [fixeds]), (length fl0), (length gl0).
  split; [eapply kept_trans; [exact K1|apply kept_alloc]|].
  split; [eapply kept_trans; [exact K2|apply kept_alloc]|].
  split; [apply list_lookup_middle; reflexivity|].
  split; [apply list_lookup_middle; reflexivity|].
  split; [apply kept_length, K1|].
  split; [apply kept_length, K2|].
  intros pb. unfold fixed_poi_fit. rewrite Hpoi.
  unfold bind at 1. rewrite E1.
  unfold bind at 1. unfold unpack at 1, bind at 1, read at 1, new_list at 1.
  cbn [store calls fget fset Floats float_lists bound_lists flag_lists w1].
  rewrite (deref_lookup _ _ _ H1).
  unfold bind at 1. rewrite E2.
  unfold bind at 1. unfold unpack at 1, bind at 1, read at 1, new_list at 1.
  cbn [store calls fget fset Flags float_lists bound_lists flag_lists].
  rewrite (deref_lookup _ _ _ H2).
  unfold bind at 1, setitem at 1.
  cbn [store calls fget fset Floats float_lists bound_lists flag_lists].
  rewrite deref_alloc.
  destruct (decide (poi < length inits)); [|reflexivity].
  unfold bind at 1, setitem at 1.
  cbn [store calls fget fset Flags float_lists bound_lists flag_lists].
  rewrite deref_alloc.
  destruct (decide (poi < length fixeds)); reflexivity.
Qed.

Lemma or_value_nonempty {A} (h : list (list A)) l (xs dflt : list A) :
  h !! l = Some xs -> 0 < length xs -> or_value h (Some l) dflt = xs.
Proof.
  intros H Hlen. unfold or_value. rewrite (deref_lookup _ _ _ H).
  destruct xs; [cbn in Hlen; lia|reflexivity].
Qed.

(** Up to its call of the optimizer, [fit] writes to no list object; after
    it, [fit] does nothing more. *)
Lemma fit_frame data pdf ip pb fp kw w :
  let w' := (fit opt data pdf ip pb fp kw w).2 in
  (calls w' = calls w /\ preserved (store w) (store w'))
  \/ exists li lb fv h1,
       calls w' = calls w ++ [mkCall twice_nll data pdf li lb fv kw h1]
       /\ preserved (store w) h1
       /\ store w' = (opt twice_nll data pdf li lb fv kw h1).2.
Proof.
  destruct (fit_run data pdf ip pb fp kw w)
    as (li & lb & lf & h1 & E & _ & _ & _ & P).
  cbn zeta. rewrite E, fit_resolved_run.
  destruct (first_violation _ _) as [[i [v b]]|].
  - left. split; [reflexivity|exact P].
  - right. unfold minimize. cbn [store calls].
    destruct (opt _ _ _ _ _ _ _ _) as [o h'] eqn:O.
    eexists li, lb, _, h1. split; [reflexivity|]. cbn. rewrite O.
    split; [exact P|reflexivity].
Qed.

(** With an optimizer that keeps the list objects it finds, so does [fit]. *)
Lemma fit_preserved data pdf ip pb fp kw w :
  keeps_lists opt data pdf kw ->
  preserved (store w) (store (fit opt data pdf ip pb fp kw w).2).
Proof.
  intros Hopt.
  destruct (fit_frame data pdf ip pb fp kw w)
    as [[_ P]|(li & lb & fv & h1 & _ & P & ->)].
  - exact P.
  - eapply preserved_trans; [exact P|apply Hopt].
Qed.

Lemma fixed_poi_fit_no_poi v data pdf ip pb fp kw w :
  poi_index (config pdf) = None ->
  exists msg,
    fixed_poi_fit opt v data pdf ip pb fp kw w = (Raise (UnspecifiedPOI msg), w).
Proof.
  intros Hpoi. unfold fixed_poi_fit. rewrite Hpoi. eexists. reflexivity.
Qed.

(** C4: on a model without a POI ([poi_index] is [None]),
    [fixed_poi_fit] raises [UnspecifiedPOI] at once: the world is the one it
    was called in, with no list object read, made or written, and no call
    of the optimizer. *)
Theorem fixed_poi_fit_needs_poi v data pdf ip pb fp kw w :
  poi_index (config pdf) = None ->
  fixed_poi_fit opt v data pdf ip pb fp kw w
  = (Raise (UnspecifiedPOI
              "No POI is defined. A POI is required to fit with a fixed POI."),
     w).
Proof.
  intros Hpoi. unfold fixed_poi_fit. rewrite Hpoi. reflexivity.
Qed.

(** C3: with a POI whose index is within the resolved initial values and
    the resolved mask, [fixed_poi_fit] is [fit] on two lists: the resolved
    initial values with [poi_val] at the POI index and the resolved mask
    with [True] at the POI index, whatever the caller's mask says there.
    With an optimizer that holds the fixed parameters at their values, the
    best-fit parameters it returns have [poi_val] at the POI index. *)
Theorem fixed_poi_fit_pins_poi v data pdf ip pb fp kw w poi :
  let inits := or_value (float_lists (store w)) ip
                        (suggested_init (config pdf)) in
  let fixeds := or_value (flag_lists (store w)) fp
                         (suggested_fixed (config pdf)) in
  poi_index (config pdf) = Some poi ->
  poi < length inits -> poi < length fixeds ->
  (exists li lf w1,
      fixed_poi_fit opt v data pdf ip pb fp kw w
      = fit opt data pdf (Some li) pb (Some lf) kw w1
      /\ float_lists (store w1) !! li = Some (<[poi := v]> inits)
      /\ flag_lists (store w1) !! lf = Some (<[poi := true]> fixeds)
      /\ <[poi := v]> inits !! poi = Some v
      /\ <[poi := true]> fixeds !! poi = Some true
      /\ calls w1 = calls w)
  /\ (forall r w',
        fixed_poi_fit opt v data pdf ip pb fp kw w = (Return r, w') ->
        (exists c, calls w' = calls w ++ [c] /\ (poi, v) ∈ c_fixed_vals c)
        /\ (holds_fixed opt -> bestfit r !! poi = Some v)).
Proof.
  intros inits fixeds Hpoi Hi Hf.
  destruct (fixed_poi_fit_run v data pdf ip fp kw w poi Hpoi)
    as (fl & gl & li & lf & Kf & Kg & Hli & Hlf & Fli & Flf & E).
  fold inits in Hli. fold fixeds in Hlf. fold inits fixeds in E.
  specialize (E pb).
  rewrite decide_True in E by exact Hi. rewrite decide_True in E by exact Hf.
  set (w1 := mkWorld _ _) in E.
  assert (Hli1 : float_lists (store w1) !! li = Some (<[poi := v]> inits)).
  { cbn. apply list_lookup_insert_eq. eapply lookup_lt_Some, Hli. }
  assert (Hlf1 : flag_lists (store w1) !! lf = Some (<[poi := true]> fixeds)).
  { cbn. apply list_lookup_insert_eq. eapply lookup_lt_Some, Hlf. }
  assert (Hv : <[poi := v]> inits !! poi = Some v)
    by (apply list_lookup_insert_eq; exact Hi).
  assert (Ht : <[poi := true]> fixeds !! poi = Some true)
    by (apply list_lookup_insert_eq; exact Hf).
  split.
  { exists li, lf, w1. repeat split; assumption || reflexivity. }
  intros r w' Hret. rewrite E in Hret.
  destruct (fit_run data pdf (Some li) pb (Some lf) kw w1)
    as (li' & lb' & lf' & h1 & E' & Hi' & _ & Hf' & _).
  rewrite (or_value_nonempty _ _ _ _ Hli1) in Hi'
    by (rewrite length_insert; lia).
  rewrite (or_value_nonempty _ _ _ _ Hlf1) in Hf'
    by (rewrite length_insert; lia).
  rewrite E', fit_resolved_run in Hret. cbn [store calls] in Hret.
  rewrite (deref_lookup _ _ _ Hi'), (deref_lookup _ _ _ Hf') in Hret.
  destruct (first_violation _ _) as [[i0 [v0 b0]]|]; [discriminate|].
  unfold minimize in Hret. cbn [store calls] in Hret.
  destruct (opt _ _ _ _ _ _ _ _) as [o h'] eqn:O.
  injection Hret as -> <-.
  assert (Hin : (poi, v) ∈ fixed_vals_of (<[poi := v]> inits)
                                         (<[poi := true]> fixeds))
    by (apply elem_of_fixed_vals; split; assumption).
  split.
  - eexists. split; [reflexivity|]. exact Hin.
  - intros Hopt. apply (Hopt _ _ _ _ _ _ _ _ _ _ O); [|exact Hin].
    intros i x Hix. apply elem_of_fixed_vals in Hix as [_ Hx].
    rewrite (deref_lookup _ _ _ Hi'). exact Hx.
Qed.

(** C9: [fixed_poi_fit] writes to no list object that exists when it is
    called.  Either the optimizer is not called and every such object has
    its elements at the end, or it is called once, on a heap where every
    such object has its elements, and the heap at the end is the one the
    optimizer leaves; so with an optimizer that keeps the list objects it
    finds, the caller's lists are unchanged after the call.  The two lists
    that are written to are new objects; [par_bounds] goes to [fit] as it
    came, and no bounds list is made or written before that. *)
Theorem fixed_poi_fit_keeps_caller_lists v data pdf ip pb fp kw w :
  let inits := or_value (float_lists (store w)) ip
                        (suggested_init (config pdf)) in
  let fixeds := or_value (flag_lists (store w)) fp
                         (suggested_fixed (config pdf)) in
  let w' := (fixed_poi_fit opt v data pdf ip pb fp kw w).2 in
  ((calls w' = calls w /\ preserved (store w) (store w'))
   \/ exists li lb fv h1,
        calls w' = calls w ++ [mkCall twice_nll data pdf li lb fv kw h1]
        /\ preserved (store w) h1
        /\ store w' = (opt twice_nll data pdf li lb fv kw h1).2)
  /\ (keeps_lists opt data pdf kw -> preserved (store w) (store w'))
  /\ forall poi,
      poi_index (config pdf) = Some poi ->
      poi < length inits -> poi < length fixeds ->
      exists li lf w1,
        fixed_poi_fit opt v data pdf ip pb fp kw w
        = fit opt data pdf (Some li) pb (Some lf) kw w1
        /\ length (float_lists (store w)) <= li
        /\ length (flag_lists (store w)) <= lf
        /\ float_lists (store w1) !! li = Some (<[poi := v]> inits)
        /\ flag_lists (store w1) !! lf = Some (<[poi := true]> fixeds)
        /\ bound_lists (store w1) = bound_lists (store w)
        /\ preserved (store w) (store w1)
        /\ calls w1 = calls w.
Proof.
  intros inits fixeds w'.
  assert (D : forall poi, poi_index (config pdf) = Some poi ->
    exists fl gl li lf,
      fl !! li = Some inits /\ gl !! lf = Some fixeds
      /\ length (float_lists (store w)) <= li
      /\ length (flag_lists (store w)) <= lf
      /\ preserved (store w)
           (mkHeap (<[li := <[poi := v]> inits]> fl) (bound_lists (store w))
                   (<[lf := <[poi := true]> fixeds]> gl))
      /\ preserved (store w)
           (mkHeap (<[li := <[poi := v]> inits]> fl) (bound_lists (store w))
                   gl)
      /\ preserved (store w) (mkHeap fl (bound_lists (store w)) gl)
      /\ fixed_poi_fit opt v data pdf ip pb fp kw w
         = if decide (poi < length inits) then
             if decide (poi < length fixeds) then
               fit opt data pdf (Some li) pb (Some lf) kw
                 (mkWorld (mkHeap (<[li := <[poi := v]> inits]> fl)
                                  (bound_lists (store w))
                                  (<[lf := <[poi := true]> fixeds]> gl))
                          (calls w))
             else
               (Raise IndexError,
                mkWorld (mkHeap (<[li := <[poi := v]> inits]> fl)
                                (bound_lists (store w)) gl) (calls w))
           else
             (Raise IndexError,
              mkWorld (mkHeap fl (bound_lists (store w)) gl) (calls w))).
  { intros poi Hpoi.
    destruct (fixed_poi_fit_run v data pdf ip fp kw w poi Hpoi)
      as (fl & gl & li & lf & Kf & Kg & Hli & Hlf & Fli & Flf & E).
    exists fl, gl, li, lf.
    repeat split; cbn; try assumption; try apply kept_refl;
      try (apply kept_write_fresh; assumption).
    apply E. }
  assert (A : (calls w' = calls w /\ preserved (store w) (store w'))
              \/ exists li lb fv h1,
                   calls w' = calls w
                              ++ [mkCall twice_nll data pdf li lb fv kw h1]
                   /\ preserved (store w) h1
                   /\ store w' = (opt twice_nll data pdf li lb fv kw h1).2).
  { subst w'. destruct (poi_index (config pdf)) as [poi|] eqn:Hpoi.
    - destruct (D poi eq_refl)
        as (fl & gl & li & lf & _ & _ & _ & _ & P1 & P2 & P3 & E).
      rewrite E.
      destruct (decide (poi < length inits));
        [|left; split; [reflexivity|exact P3]].
      destruct (decide (poi < length fixeds));
        [|left; split; [reflexivity|exact P2]].
      set (w1 := mkWorld _ (calls w)).
      destruct (fit_frame data pdf (Some li) pb (Some lf) kw w1)
        as [[C P]|(li' & lb' & fv & h1 & C & P & S)].
      + left. split; [exact C|].
        eapply preserved_trans; [exact P1|exact P].
      + right. exists li', lb', fv, h1. split; [exact C|]. split; [|exact S].
        eapply preserved_trans; [exact P1|exact P].
    - destruct (fixed_poi_fit_no_poi v data pdf ip pb fp kw w Hpoi)
        as [msg ->].
      left. split; [reflexivity|apply preserved_refl]. }
  split; [exact A|]. split.
  - intros Hopt.
    destruct A as [[_ P]|(li & lb & fv & h1 & _ & P & ->)]; [exact P|].
    eapply preserved_trans; [exact P|apply Hopt].
  - intros poi Hpoi Hi Hf.
    destruct (D poi Hpoi)
      as (fl & gl & li & lf & Hli & Hlf & Fli & Flf & P1 & _ & _ & E).
    rewrite decide_True in E by exact Hi.
    rewrite decide_True in E by exact Hf.
    eexists li, lf, _. split; [exact E|]. cbn [store calls].
    split; [exact Fli|]. split; [exact Flf|].
    split; [apply list_lookup_insert_eq; eapply lookup_lt_Some, Hli|].
    split; [apply list_lookup_insert_eq; eapply lookup_lt_Some, Hlf|].
    split; [reflexivity|]. split; [exact P1|reflexivity].
Qed.

(** *** Falsy arguments *)

Lemma bind_same_start {A B} (m m' : M Kwargs A) (k : A -> M Kwargs B) w :
  m w = m' w -> bind m k w = bind m' k w.
Proof. intros H. unfold bind. rewrite H. reflexivity. Qed.

Lemma bind_same_rest {A B} (m : M Kwargs A) (k k' : A -> M Kwargs B) w :
  (forall a w', m w = (Return a, w') -> k a w' = k' a w') ->
  bind m k w = bind m k' w.
Proof.
  intros H. unfold bind. destruct (m w) as [[a|e] w'] eqn:E; [|reflexivity].
  apply H. reflexivity.
Qed.

Lemma fit_falsy_init data pdf li pb fp kw w :
  float_lists (store w) !! li = Some [] ->
  fit opt data pdf (Some li) pb fp kw w = fit opt data pdf None pb fp kw w.
Proof.
  intros H. unfold fit. apply bind_same_start, or_else_falsy. exact H.
Qed.

Lemma fit_falsy_bounds data pdf ip lb fp kw w :
  bound_lists (store w) !! lb = Some [] ->
  fit opt data pdf ip (Some lb) fp kw w = fit opt data pdf ip None fp kw w.
Proof.
  intros H. unfold fit. apply bind_same_rest. intros l w1 E1.
  destruct (or_else_floats ip (suggested_init (config pdf)) w)
    as (l' & fl & E1' & _ & _).
  rewrite E1' in E1. injection E1 as -> <-.
  apply bind_same_start, or_else_falsy. exact H.
Qed.

Lemma fit_falsy_fixed data pdf ip pb lf kw w :
  flag_lists (store w) !! lf = Some [] ->
  fit opt data pdf ip pb (Some lf) kw w = fit opt data pdf ip pb None kw w.
Proof.
  intros H. unfold fit. apply bind_same_rest. intros l w1 E1.
  destruct (or_else_floats ip (suggested_init (config pdf)) w)
    as (l' & fl & E1' & _ & _).
  rewrite E1' in E1. injection E1 as -> <-.
  apply bind_same_rest. intros l2 w2 E2.
  destruct (or_else_bounds pb (suggested_bounds (config pdf))
              (mkWorld (mkHeap fl (bound_lists (store w))
                               (flag_lists (store w))) (calls w)))
    as (l2' & bl & E2' & _ & _).
  rewrite E2' in E2. injection E2 as -> <-.
  apply bind_same_start, or_else_falsy. exact H.
Qed.

(** ** More about the validator *)

Lemma or_else_truthy {A} (f : field A) l (x : A) (xs : list A)
    (dflt : M Kwargs loc) w :
  fget f (store w) !! l = Some (x :: xs) ->
  or_else f (Some l) dflt w = (Return l, w).
Proof.
  intros H. unfold or_else, bind, read. cbn.
  rewrite (deref_lookup _ _ _ H). reflexivity.
Qed.

(** X1: [_validate_fit_inputs] changes nothing; it returns exactly when
    every index that both lists have holds a value within its bound, and
    what it raises otherwise is a [ValueError] whose index, value and bound
    are an entry of the two lists that is not within. *)
Theorem validate_fit_inputs_verdict li lb lf w :
  let inits := deref (float_lists (store w)) li in
  let bnds := deref (bound_lists (store w)) lb in
  (_validate_fit_inputs li lb lf w).2 = w
  /\ ((_validate_fit_inputs li lb lf w).1 = Return tt
      <-> forall i v b, inits !! i = Some v -> bnds !! i = Some b ->
                        within b v = true)
  /\ forall e, (_validate_fit_inputs li lb lf w).1 = Raise e ->
               exists i v b, e = ValueError i v b
                             /\ inits !! i = Some v /\ bnds !! i = Some b
                             /\ within b v = false.
Proof.
  intros inits bnds. rewrite validate_run. fold inits bnds.
  destruct (first_violation inits bnds) as [[i [v b]]|] eqn:F; cbn.
  - apply first_violation_Some in F as (Hv & Hb & Hw & _).
    split; [reflexivity|]. split.
    + split; [discriminate|]. intros H.
      rewrite (H i v b Hv Hb) in Hw. discriminate.
    + intros e [= <-]. exists i, v, b. auto.
  - split; [reflexivity|]. split; [|discriminate].
    split; [|reflexivity]. intros _. apply first_violation_None, F.
Qed.

Lemma deref_insert_take {A} (h : list (list A)) l (n : nat) :
  deref (<[l := take n (deref h l)]> h) l = take n (deref h l).
Proof.
  unfold deref. destruct (decide (l < length h)) as [Hl|Hl].
  - rewrite list_lookup_insert_eq by exact Hl. reflexivity.
  - rewrite list_insert_ge by lia.
    destruct (h !! l) as [ys|] eqn:E;
      [apply lookup_lt_Some in E; lia|]. cbn. rewrite take_nil. reflexivity.
Qed.

(** X2: the validator looks at the common length of the two lists only:
    with each list cut to the length of the other, it does the same.  A
    value without a bound, or a bound without a value, is never checked and
    never an error. *)
Theorem validate_fit_inputs_common_length li lb lf w :
  let inits := deref (float_lists (store w)) li in
  let bnds := deref (bound_lists (store w)) lb in
  (_validate_fit_inputs li lb lf w).1
  = (_validate_fit_inputs li lb lf
       (mkWorld
          (mkHeap (<[li := take (length bnds) inits]> (float_lists (store w)))
                  (<[lb := take (length inits) bnds]> (bound_lists (store w)))
                  (flag_lists (store w)))
          (calls w))).1.
Proof.
  intros inits bnds. rewrite !validate_run.
  cbn [store calls float_lists bound_lists flag_lists].
  subst inits bnds. rewrite !deref_insert_take.
  unfold first_violation. rewrite zip_with_take_both.
  destruct (list_find _ _) as [[i [v b]]|]; reflexivity.
Qed.

(** ** More about [fit] *)

Lemma fit_on_lists data pdf li lb lf kw w x xs y ys z zs :
  float_lists (store w) !! li = Some (x :: xs) ->
  bound_lists (store w) !! lb = Some (y :: ys) ->
  flag_lists (store w) !! lf = Some (z :: zs) ->
  fit opt data pdf (Some li) (Some lb) (Some lf) kw w
  = fit_resolved opt data pdf li lb lf kw w.
Proof.
  intros Hi Hb Hf. unfold fit.
  unfold bind at 1. rewrite (or_else_truthy Floats li x xs) by exact Hi.
  unfold bind at 1. rewrite (or_else_truthy Bounds lb y ys) by exact Hb.
  unfold bind at 1. rewrite (or_else_truthy Flags lf z zs) by exact Hf.
  reflexivity.
Qed.

(** X3: [fit] does not copy.  Given three lists that are not empty and
    whose values are within their bounds, it makes no list object, and the
    optimizer is called on the caller's heap with references to the
    caller's own lists: what the optimizer writes to its initial values or
    bounds, it writes to the caller's lists. *)
Theorem fit_by_reference data pdf li lb lf kw w x xs y ys z zs :
  float_lists (store w) !! li = Some (x :: xs) ->
  bound_lists (store w) !! lb = Some (y :: ys) ->
  flag_lists (store w) !! lf = Some (z :: zs) ->
  (forall i v b, (x :: xs) !! i = Some v -> (y :: ys) !! i = Some b ->
                 within b v = true) ->
  let fv := fixed_vals_of (x :: xs) (z :: zs) in
  fit opt data pdf (Some li) (Some lb) (Some lf) kw w
  = ((opt twice_nll data pdf li lb fv kw (store w)).1,
     mkWorld (opt twice_nll data pdf li lb fv kw (store w)).2
             (calls w ++ [mkCall twice_nll data pdf li lb fv kw (store w)])).
Proof.
  intros Hi Hb Hf Hok fv.
  rewrite (fit_on_lists data pdf li lb lf kw w x xs y ys z zs Hi Hb Hf).
  rewrite fit_resolved_run.
  rewrite (deref_lookup _ _ _ Hi), (deref_lookup _ _ _ Hb),
    (deref_lookup _ _ _ Hf).
  apply first_violation_None in Hok. rewrite Hok.
  unfold minimize. fold fv.
  destruct (opt twice_nll data pdf li lb fv kw (store w)) as [o h'].
  reflexivity.
Qed.

(** X4: a fixed value that [fit] hands to the optimizer is within the bound
    of its parameter, when the parameter has a bound: validation comes
    before the fixed values are built, and does not spare fixed
    parameters. *)
Theorem fit_fixed_vals_within_bounds data pdf ip pb fp kw w c i x b :
  calls (fit opt data pdf ip pb fp kw w).2 = calls w ++ [c] ->
  (i, x) ∈ c_fixed_vals c ->
  or_value (bound_lists (store w)) pb (suggested_bounds (config pdf)) !! i
  = Some b ->
  within b x = true.
Proof.
  destruct (fit_run data pdf ip pb fp kw w)
    as (li & lb & lf & h1 & E & Hi & Hb & Hf & _).
  rewrite E, fit_resolved_run. cbn [store calls].
  rewrite (deref_lookup _ _ _ Hi), (deref_lookup _ _ _ Hb),
    (deref_lookup _ _ _ Hf).
  destruct (first_violation _ _) as [[i0 [v0 b0]]|] eqn:F.
  - cbn. intros Hc. apply (f_equal length) in Hc.
    rewrite length_app in Hc. cbn in Hc. lia.
  - unfold minimize. cbn [store calls].
    destruct (opt _ _ _ _ _ _ _ _) as [o h']. cbn.
    intros Hc Hin Hbi. apply app_inv_head in Hc. injection Hc as <-.
    cbn in Hin. apply elem_of_fixed_vals in Hin as [_ Hx].
    rewrite first_violation_None in F. exact (F i x b Hx Hbi).
Qed.

(** ** More about [fixed_poi_fit] *)

(** With a POI within the two resolved lists, [fixed_poi_fit] comes to the
    body of [fit] on a new list of initial values, the resolved bounds and a
    new mask; a list of bounds that the caller gave and that is not empty is
    passed as the object it is. *)
Lemma fixed_poi_fit_resolved v data pdf ip pb fp kw w poi :
  let inits := or_value (float_lists (store w)) ip
                        (suggested_init (config pdf)) in
  let bnds := or_value (bound_lists (store w)) pb
                       (suggested_bounds (config pdf)) in
  let fixeds := or_value (flag_lists (store w)) fp
                         (suggested_fixed (config pdf)) in
  poi_index (config pdf) = Some poi ->
  poi < length inits -> poi < length fixeds ->
  exists li lb lf h1,
    fixed_poi_fit opt v data pdf ip pb fp kw w
    = fit_resolved opt data pdf li lb lf kw (mkWorld h1 (calls w))
    /\ float_lists h1 !! li = Some (<[poi := v]> inits)
    /\ bound_lists h1 !! lb = Some bnds
    /\ flag_lists h1 !! lf = Some (<[poi := true]> fixeds)
    /\ preserved (store w) h1
    /\ length (float_lists (store w)) <= li
    /\ length (flag_lists (store w)) <= lf
    /\ forall l0 y ys,
        pb = Some l0 -> bound_lists (store w) !! l0 = Some (y :: ys) ->
        lb = l0 /\ bound_lists h1 = bound_lists (store w).
Proof.
  intros inits bnds fixeds Hpoi Hi Hf.
  destruct (fixed_poi_fit_run v data pdf ip fp kw w poi Hpoi)
    as (fl & gl & li & lf & Kf & Kg & Hli & Hlf & Fli & Flf & E).
  fold inits in Hli. fold fixeds in Hlf. fold inits fixeds in E.
  specialize (E pb).
  rewrite decide_True in E by exact Hi. rewrite decide_True in E by exact Hf.
  set (w1 := mkWorld _ _) in E.
  assert (Hli1 : float_lists (store w1) !! li = Some (<[poi := v]> inits)).
  { cbn. apply list_lookup_insert_eq. eapply lookup_lt_Some, Hli. }
  assert (Hlf1 : flag_lists (store w1) !! lf = Some (<[poi := true]> fixeds)).
  { cbn. apply list_lookup_insert_eq. eapply lookup_lt_Some, Hlf. }
  destruct (or_else_bounds pb (suggested_bounds (config pdf)) w1)
    as (lb & bl & E2 & Hlb & K2).
  cbn [store calls float_lists bound_lists flag_lists w1] in E2, Hlb, K2.
  fold bnds in Hlb.
  exists li, lb, lf,
    (mkHeap (<[li := <[poi := v]> inits]> fl) bl
            (<[lf := <[poi := true]> fixeds]> gl)).
  split.
  { rewrite E. unfold fit.
    destruct (<[poi := v]> inits) as [|x xs] eqn:Ex.
    { apply (f_equal length) in Ex. rewrite length_insert in Ex.
      cbn in Ex. lia. }
    destruct (<[poi := true]> fixeds) as [|z zs] eqn:Ez.
    { apply (f_equal length) in Ez. rewrite length_insert in Ez.
      cbn in Ez. lia. }
    unfold bind at 1. rewrite (or_else_truthy Floats li x xs) by exact Hli1.
    unfold bind at 1. rewrite E2.
    unfold bind at 1.
    rewrite (or_else_truthy Flags lf z zs)
      by (cbn; apply list_lookup_insert_eq; eapply lookup_lt_Some, Hlf).
    reflexivity. }
  cbn [float_lists bound_lists flag_lists].
  split; [apply list_lookup_insert_eq; eapply lookup_lt_Some, Hli|].
  split; [exact Hlb|].
  split; [apply list_lookup_insert_eq; eapply lookup_lt_Some, Hlf|].
  split.
  { repeat split; cbn [float_lists bound_lists flag_lists].
    - apply kept_write_fresh; assumption.
    - exact K2.
    - apply kept_write_fresh; assumption. }
  split; [exact Fli|]. split; [exact Flf|].
  intros l0 y ys -> Hl0.
  rewrite (or_else_truthy Bounds l0 y ys) in E2 by exact Hl0.
  injection E2 as <- E2. split; [reflexivity|]. symmetry. exact E2.
Qed.

(** X5: a POI value that is not within the bound of the POI is rejected:
    [fixed_poi_fit] raises the validator's [ValueError] for the POI or for
    an index before it, and does not call the optimizer; when the values
    before the POI are within their bounds, the error is the one of the POI,
    with the POI value. *)
Theorem fixed_poi_fit_rejects_poi_value v data pdf ip pb fp kw w poi b :
  let inits := or_value (float_lists (store w)) ip
                        (suggested_init (config pdf)) in
  let bnds := or_value (bound_lists (store w)) pb
                       (suggested_bounds (config pdf)) in
  let fixeds := or_value (flag_lists (store w)) fp
                         (suggested_fixed (config pdf)) in
  poi_index (config pdf) = Some poi ->
  poi < length inits -> poi < length fixeds ->
  bnds !! poi = Some b -> within b v = false ->
  exists i0 v0 b0 w',
    fixed_poi_fit opt v data pdf ip pb fp kw w
    = (Raise (ValueError i0 v0 b0), w')
    /\ i0 <= poi
    /\ calls w' = calls w
    /\ preserved (store w) (store w')
    /\ ((forall j vj bj, j < poi -> inits !! j = Some vj ->
                         bnds !! j = Some bj -> within bj vj = true) ->
        i0 = poi /\ v0 = v /\ b0 = b).
Proof.
  intros inits bnds fixeds Hpoi Hi Hf Hb Hw.
  destruct (fixed_poi_fit_resolved v data pdf ip pb fp kw w poi Hpoi Hi Hf)
    as (li & lb & lf & h1 & E & Hli & Hlb & _ & P & _).
  fold inits in Hli. fold bnds in Hlb.
  assert (Hv : <[poi := v]> inits !! poi = Some v)
    by (apply list_lookup_insert_eq; exact Hi).
  destruct (first_violation_exists _ _ poi v b Hv Hb Hw)
    as (i0 & v0 & b0 & F & Hle).
  exists i0, v0, b0, (mkWorld h1 (calls w)).
  rewrite E, fit_resolved_run. cbn [store calls].
  rewrite (deref_lookup _ _ _ Hli), (deref_lookup _ _ _ Hlb), F.
  split; [reflexivity|]. split; [exact Hle|]. split; [reflexivity|].
  split; [exact P|]. intros Hbefore.
  apply first_violation_Some in F as (F1 & F2 & F3 & _).
  destruct (decide (i0 = poi)) as [->|Hne].
  - rewrite Hv in F1. rewrite Hb in F2. split; [reflexivity|].
    split; congruence.
  - rewrite list_lookup_insert_ne in F1 by lia.
    rewrite (Hbefore i0 v0 b0) in F3 by (assumption || lia). discriminate.
Qed.

(** X6: a POI index that is not an index of the resolved initial values, or
    of the resolved mask, ends [fixed_poi_fit] with the [IndexError] of the
    list assignment: nothing is validated, the optimizer is not called, and
    the lists that existed are as they were. *)
Theorem fixed_poi_fit_index_error v data pdf ip pb fp kw w poi :
  let inits := or_value (float_lists (store w)) ip
                        (suggested_init (config pdf)) in
  let fixeds := or_value (flag_lists (store w)) fp
                         (suggested_fixed (config pdf)) in
  poi_index (config pdf) = Some poi ->
  length inits <= poi \/ length fixeds <= poi ->
  exists w',
    fixed_poi_fit opt v data pdf ip pb fp kw w = (Raise IndexError, w')
    /\ calls w' = calls w
    /\ preserved (store w) (store w').
Proof.
  intros inits fixeds Hpoi Hout.
  destruct (fixed_poi_fit_run v data pdf ip fp kw w poi Hpoi)
    as (fl & gl & li & lf & Kf & Kg & Hli & Hlf & Fli & Flf & E).
  fold inits fixeds in E. rewrite (E pb).
  destruct (decide (poi < length inits)) as [Hi|Hi].
  - rewrite decide_False by lia. eexists. split; [reflexivity|].
    split; [reflexivity|]. repeat split; cbn; try assumption.
    + apply kept_write_fresh; assumption.
    + apply kept_refl.
  - eexists. split; [reflexivity|]. split; [reflexivity|].
    repeat split; cbn; try assumption. apply kept_refl.
Qed.

(** X7: [fixed_poi_fit] validates the POI value, not the value the caller
    has at the POI index: when the POI value is within the POI's bound and
    every other value is within its bound, the optimizer is called, on a
    new list that holds the initial values with the POI value at the POI
    index, whatever the caller's value there. *)
Theorem fixed_poi_fit_validates_pinned_value v data pdf ip pb fp kw w poi :
  let inits := or_value (float_lists (store w)) ip
                        (suggested_init (config pdf)) in
  let bnds := or_value (bound_lists (store w)) pb
                       (suggested_bounds (config pdf)) in
  let fixeds := or_value (flag_lists (store w)) fp
                         (suggested_fixed (config pdf)) in
  poi_index (config pdf) = Some poi ->
  poi < length inits -> poi < length fixeds ->
  (forall i vi bi, i <> poi -> inits !! i = Some vi -> bnds !! i = Some bi ->
                   within bi vi = true) ->
  (forall b, bnds !! poi = Some b -> within b v = true) ->
  exists li lb h1,
    let fv := fixed_vals_of (<[poi := v]> inits) (<[poi := true]> fixeds) in
    float_lists h1 !! li = Some (<[poi := v]> inits)
    /\ bound_lists h1 !! lb = Some bnds
    /\ fixed_poi_fit opt v data pdf ip pb fp kw w
       = ((opt twice_nll data pdf li lb fv kw h1).1,
          mkWorld (opt twice_nll data pdf li lb fv kw h1).2
                  (calls w ++ [mkCall twice_nll data pdf li lb fv kw h1])).
Proof.
  intros inits bnds fixeds Hpoi Hi Hf Hothers Hv.
  destruct (fixed_poi_fit_resolved v data pdf ip pb fp kw w poi Hpoi Hi Hf)
    as (li & lb & lf & h1 & E & Hli & Hlb & Hlf & _).
  fold inits in Hli. fold bnds in Hlb. fold fixeds in Hlf.
  exists li, lb, h1. cbn zeta. split; [exact Hli|]. split; [exact Hlb|].
  rewrite E, fit_resolved_run. cbn [store calls].
  rewrite (deref_lookup _ _ _ Hli), (deref_lookup _ _ _ Hlb),
    (deref_lookup _ _ _ Hlf).
  assert (F : first_violation (<[poi := v]> inits) bnds = None).
  { apply first_violation_None. intros i vi bi Hvi Hbi.
    destruct (decide (i = poi)) as [->|Hne].
    - rewrite list_lookup_insert_eq in Hvi by exact Hi.
      injection Hvi as <-. apply Hv, Hbi.
    - rewrite list_lookup_insert_ne in Hvi by lia.
      apply (Hothers i vi bi Hne Hvi Hbi). }
  rewrite F. unfold minimize. cbn [store calls].
  destruct (opt _ _ _ _ _ _ _ _) as [o h']. reflexivity.
Qed.

(** What [fixed_poi_fit] gives the optimizer, when it calls it. *)
Lemma fixed_poi_fit_call v data pdf ip pb fp kw w poi c :
  let inits := or_value (float_lists (store w)) ip
                        (suggested_init (config pdf)) in
  let bnds := or_value (bound_lists (store w)) pb
                       (suggested_bounds (config pdf)) in
  let fixeds := or_value (flag_lists (store w)) fp
                         (suggested_fixed (config pdf)) in
  poi_index (config pdf) = Some poi ->
  poi < length inits -> poi < length fixeds ->
  calls (fixed_poi_fit opt v data pdf ip pb fp kw w).2 = calls w ++ [c] ->
  exists li lb h1,
    c = mkCall twice_nll data pdf li lb
               (fixed_vals_of (<[poi := v]> inits) (<[poi := true]> fixeds))
               kw h1
    /\ float_lists h1 !! li = Some (<[poi := v]> inits)
    /\ bound_lists h1 !! lb = Some bnds
    /\ preserved (store w) h1
    /\ length (float_lists (store w)) <= li
    /\ forall l0 y ys,
        pb = Some l0 -> bound_lists (store w) !! l0 = Some (y :: ys) ->
        lb = l0 /\ bound_lists h1 = bound_lists (store w).
Proof.
  intros inits bnds fixeds Hpoi Hi Hf.
  destruct (fixed_poi_fit_resolved v data pdf ip pb fp kw w poi Hpoi Hi Hf)
    as (li & lb & lf & h1 & E & Hli & Hlb & Hlf & P & Fli & _ & R).
  fold inits in Hli. fold bnds in Hlb. fold fixeds in Hlf.
  rewrite E, fit_resolved_run. cbn [store calls].
  rewrite (deref_lookup _ _ _ Hli), (deref_lookup _ _ _ Hlb),
    (deref_lookup _ _ _ Hlf).
  destruct (first_violation _ _) as [[i0 [v0 b0]]|].
  - cbn. intros Hc. apply (f_equal length) in Hc.
    rewrite length_app in Hc. cbn in Hc. lia.
  - unfold minimize. cbn [store calls].
    destruct (opt _ _ _ _ _ _ _ _) as [o h']. cbn.
    intros Hc. apply app_inv_head in Hc. injection Hc as <-.
    exists li, lb, h1. split; [reflexivity|]. split; [exact Hli|].
    split; [exact Hlb|]. split; [exact P|]. split; [exact Fli|exact R].
Qed.

(** X8: the fixed values that [fixed_poi_fit] hands to the optimizer are the
    POI with the POI value, and every other parameter that the resolved mask
    fixes, with its resolved initial value: pinning the POI changes nothing
    for the other parameters. *)
Theorem fixed_poi_fit_fixed_vals v data pdf ip pb fp kw w poi c :
  let inits := or_value (float_lists (store w)) ip
                        (suggested_init (config pdf)) in
  let fixeds := or_value (flag_lists (store w)) fp
                         (suggested_fixed (config pdf)) in
  poi_index (config pdf) = Some poi ->
  poi < length inits -> poi < length fixeds ->
  calls (fixed_poi_fit opt v data pdf ip pb fp kw w).2 = calls w ++ [c] ->
  forall i x,
    (i, x) ∈ c_fixed_vals c
    <-> (i = poi /\ x = v)
        \/ (i <> poi /\ fixeds !! i = Some true /\ inits !! i = Some x).
Proof.
  intros inits fixeds Hpoi Hi Hf Hc i x.
  destruct (fixed_poi_fit_call v data pdf ip pb fp kw w poi c Hpoi Hi Hf Hc)
    as (li & lb & h1 & -> & _).
  cbn [c_fixed_vals]. fold inits fixeds. rewrite elem_of_fixed_vals.
  destruct (decide (i = poi)) as [->|Hne].
  - rewrite !list_lookup_insert_eq by assumption. split.
    + intros [_ [= <-]]. left. auto.
    + intros [[_ ->]|[Hn _]]; [auto|contradiction].
  - rewrite !list_lookup_insert_ne by lia. split.
    + intros [H1 H2]. right. auto.
    + intros [[-> _]|(_ & H1 & H2)]; [contradiction|auto].
Qed.

(** X9: the optimizer gets from [fixed_poi_fit] a list of initial values
    that did not exist before the call, and the caller's own list of bounds
    when the caller gave one that is not empty: the initial values are
    copied, the bounds are not. *)
Theorem fixed_poi_fit_call_references
    v data pdf ip l0 y ys fp kw w poi c :
  let inits := or_value (float_lists (store w)) ip
                        (suggested_init (config pdf)) in
  let fixeds := or_value (flag_lists (store w)) fp
                         (suggested_fixed (config pdf)) in
  poi_index (config pdf) = Some poi ->
  poi < length inits -> poi < length fixeds ->
  bound_lists (store w) !! l0 = Some (y :: ys) ->
  calls (fixed_poi_fit opt v data pdf ip (Some l0) fp kw w).2
  = calls w ++ [c] ->
  c_par_bounds c = l0
  /\ bound_lists (c_heap c) = bound_lists (store w)
  /\ length (float_lists (store w)) <= c_init_pars c
  /\ float_lists (c_heap c) !! c_init_pars c = Some (<[poi := v]> inits)
  /\ preserved (store w) (c_heap c).
Proof.
  intros inits fixeds Hpoi Hi Hf Hl0 Hc.
  destruct (fixed_poi_fit_call v data pdf ip (Some l0) fp kw w poi c
              Hpoi Hi Hf Hc)
    as (li & lb & h1 & -> & Hli & _ & P & Fli & R).
  destruct (R l0 y ys eq_refl Hl0) as [-> Hb]. cbn.
  repeat split; try assumption; apply P.
Qed.

(** ** Bounds that let nothing in *)

Lemma fit_raises_on_violation data pdf ip pb fp kw w i v b :
  or_value (float_lists (store w)) ip (suggested_init (config pdf)) !! i
  = Some v ->
  or_value (bound_lists (store w)) pb (suggested_bounds (config pdf)) !! i
  = Some b ->
  within b v = false ->
  exists i0 v0 b0 w',
    fit opt data pdf ip pb fp kw w = (Raise (ValueError i0 v0 b0), w')
    /\ i0 <= i /\ calls w' = calls w.
Proof.
  intros Hv Hb Hw.
  destruct (fit_run data pdf ip pb fp kw w)
    as (li & lb & lf & h1 & E & Hi & Hbn & _ & _).
  destruct (first_violation_exists _ _ i v b Hv Hb Hw)
    as (i0 & v0 & b0 & F & Hle).
  exists i0, v0, b0, (mkWorld h1 (calls w)).
  rewrite E, fit_resolved_run. cbn [store calls].
  rewrite (deref_lookup _ _ _ Hi), (deref_lookup _ _ _ Hbn), F.
  auto.
Qed.

Lemma within_nan (b : bound) (v : float) :
  v = nan \/ b.1 = nan \/ b.2 = nan -> within b v = false.
Proof.
  unfold within. rewrite !FloatAxioms.leb_spec.
  intros [->|[->| ->]];
    change (FloatOps.Prim2SF nan) with SpecFloat.S754_nan.
  - destruct (FloatOps.Prim2SF b.1); reflexivity.
  - reflexivity.
  - destruct (FloatOps.Prim2SF v); cbn; apply andb_false_r.
Qed.

(** X10: not-a-number is within no bound and bounds nothing.  A resolved
    initial value that is NaN, or that has NaN as an end of its bound, makes
    [fit] raise the validator's [ValueError], for that index or an earlier
    one, without a call of the optimizer. *)
Theorem fit_rejects_nan data pdf ip pb fp kw w i v b :
  or_value (float_lists (store w)) ip (suggested_init (config pdf)) !! i
  = Some v ->
  or_value (bound_lists (store w)) pb (suggested_bounds (config pdf)) !! i
  = Some b ->
  v = nan \/ b.1 = nan \/ b.2 = nan ->
  exists i0 v0 b0 w',
    fit opt data pdf ip pb fp kw w = (Raise (ValueError i0 v0 b0), w')
    /\ i0 <= i /\ calls w' = calls w.
Proof.
  intros Hv Hb Hnan.
  apply (fit_raises_on_violation data pdf ip pb fp kw w i v b Hv Hb).
  apply within_nan, Hnan.
Qed.

(** The order of the floats, as their specification compares them, is
    transitive. *)
Lemma SFleb_trans (a b c : SpecFloat.spec_float) :
  SpecFloat.SFleb a b = true -> SpecFloat.SFleb b c = true ->
  SpecFloat.SFleb a c = true.
Proof.
  unfold SpecFloat.SFleb, SpecFloat.SFcompare.
  destruct a as [sa|sa| |sa ma ea], b as [sb|sb| |sb mb eb],
           c as [sc|sc| |sc mc ec];
    try discriminate; try reflexivity;
    repeat match goal with s : bool |- _ => destruct s end;
    try discriminate; try reflexivity.
  all: change (Pos.compare_cont Eq) with Pos.compare.
  all: destruct (Z.compare_spec ea eb), (Z.compare_spec eb ec),
         (Z.compare_spec ea ec);
    try discriminate; try reflexivity; try lia; subst.
  all: destruct (Pos.compare_spec ma mb), (Pos.compare_spec mb mc),
         (Pos.compare_spec ma mc);
    cbn; try discriminate; try reflexivity; try lia.
Qed.

Lemma within_ordered (b : bound) (v : float) :
  within b v = true -> (b.1 <=? b.2)%float = true.
Proof.
  unfold within. rewrite !FloatAxioms.leb_spec.
  intros H. apply andb_prop in H as [H1 H2].
  exact (SFleb_trans _ _ _ H1 H2).
Qed.

(** X11: a bound whose low end is not below or equal to its high end lets
    no value in: a resolved initial value with such a bound makes [fit] raise
    the validator's [ValueError], for that index or an earlier one, without
    a call of the optimizer. *)
Theorem fit_rejects_inverted_bound data pdf ip pb fp kw w i v b :
  or_value (float_lists (store w)) ip (suggested_init (config pdf)) !! i
  = Some v ->
  or_value (bound_lists (store w)) pb (suggested_bounds (config pdf)) !! i
  = Some b ->
  (b.1 <=? b.2)%float = false ->
  exists i0 v0 b0 w',
    fit opt data pdf ip pb fp kw w = (Raise (ValueError i0 v0 b0), w')
    /\ i0 <= i /\ calls w' = calls w.
Proof.
  intros Hv Hb Hinv.
  apply (fit_raises_on_violation data pdf ip pb fp kw w i v b Hv Hb).
  destruct (within b v) eqn:W; [|reflexivity].
  rewrite (within_ordered b v W) in Hinv. discriminate.
Qed.

(** X13: a POI value that is NaN never reaches the optimizer: when the POI
    has a bound, [fixed_poi_fit] raises the validator's [ValueError], for
    the POI or an index before it. *)
Theorem fixed_poi_fit_rejects_nan data pdf ip pb fp kw w poi b :
  let inits := or_value (float_lists (store w)) ip
                        (suggested_init (config pdf)) in
  let bnds := or_value (bound_lists (store w)) pb
                       (suggested_bounds (config pdf)) in
  let fixeds := or_value (flag_lists (store w)) fp
                         (suggested_fixed (config pdf)) in
  poi_index (config pdf) = Some poi ->
  poi < length inits -> poi < length fixeds ->
  bnds !! poi = Some b ->
  exists i0 v0 b0 w',
    fixed_poi_fit opt nan data pdf ip pb fp kw w
    = (Raise (ValueError i0 v0 b0), w')
    /\ i0 <= poi /\ calls w' = calls w.
Proof.
  intros inits bnds fixeds Hpoi Hi Hf Hb.
  destruct (fixed_poi_fit_resolved nan data pdf ip pb fp kw w poi Hpoi Hi Hf)
    as (li & lb & lf & h1 & E & Hli & Hlb & _).
  fold inits in Hli. fold bnds in Hlb.
  assert (Hv : <[poi := nan]> inits !! poi = Some nan)
    by (apply list_lookup_insert_eq; exact Hi).
  assert (Hw : within b nan = false) by (apply within_nan; auto).
  destruct (first_violation_exists _ _ poi nan b Hv Hb Hw)
    as (i0 & v0 & b0 & F & Hle).
  exists i0, v0, b0, (mkWorld h1 (calls w)).
  rewrite E, fit_resolved_run. cbn [store calls].
  rewrite (deref_lookup _ _ _ Hli), (deref_lookup _ _ _ Hlb), F. auto.
Qed.

(** ** A mask that fixes everything *)

Lemma fixed_vals_all_true_from (inits : list float) (n k : nat) :
  length inits <= n ->
  omap pick_fixed
       (imap (fun i => pair (k + i)) (zip inits (replicate n true)))
  = imap (fun i => pair (k + i)) inits.
Proof.
  revert n k. induction inits as [|x xs IH]; intros n k Hn; [reflexivity|].
  destruct n as [|n]; [cbn in Hn; lia|].
  change (zip (x :: xs) (replicate (S n) true))
    with ((x, true) :: zip xs (replicate n true)).
  rewrite !imap_cons. cbn [omap list_omap pick_fixed]. f_equal.
  rewrite (imap_ext _ (fun i => pair (S k + i)))
    by (intros; cbn; f_equal; lia).
  rewrite IH by (cbn in Hn; lia).
  apply imap_ext. intros; cbn; f_equal; lia.
Qed.

(** X12: with a mask that is true for every parameter, the fixed values are
    all the initial values, each with its index: [fit] then leaves nothing
    for the optimizer to vary. *)
Theorem fixed_vals_all_true (inits : list float) (n : nat) :
  length inits <= n ->
  fixed_vals_of inits (replicate n true) = enumerate inits
  /\ length (fixed_vals_of inits (replicate n true)) = length inits
  /\ forall i x, inits !! i = Some x ->
                 fixed_vals_of inits (replicate n true) !! i = Some (i, x).
Proof.
  intros Hn.
  assert (E : fixed_vals_of inits (replicate n true) = enumerate inits).
  { unfold fixed_vals_of, enumerate.
    rewrite (imap_ext pair (fun i => pair (0 + i))) by reflexivity.
    apply fixed_vals_all_true_from, Hn. }
  rewrite E. split; [reflexivity|]. unfold enumerate. split.
  - apply length_imap.
  - intros i x Hx. rewrite list_lookup_imap, Hx. reflexivity.
Qed.

(** ** Falsy arguments and the defaults *)

Lemma or_value_empty {A} (h : list (list A)) l (dflt : list A) :
  h !! l = Some [] -> or_value h (Some l) dflt = dflt.
Proof.
  intros H. unfold or_value. rewrite (deref_lookup _ _ _ H). reflexivity.
Qed.

(** An argument that refers to an empty list, in [fixed_poi_fit]. *)
Lemma fixed_poi_fit_falsy v data pdf ip pb fp kw w l :
  (float_lists (store w) !! l = Some [] ->
   fixed_poi_fit opt v data pdf (Some l) pb fp kw w
   = fixed_poi_fit opt v data pdf None pb fp kw w)
  /\ (bound_lists (store w) !! l = Some [] ->
      fixed_poi_fit opt v data pdf ip (Some l) fp kw w
      = fixed_poi_fit opt v data pdf ip None fp kw w)
  /\ (flag_lists (store w) !! l = Some [] ->
      fixed_poi_fit opt v data pdf ip pb (Some l) kw w
      = fixed_poi_fit opt v data pdf ip pb None kw w).
Proof.
  split; [|split].
  - intros Hi. unfold fixed_poi_fit.
    destruct (poi_index (config pdf)); [|reflexivity].
    apply bind_same_start, or_else_falsy. exact Hi.
  - intros Hb. destruct (poi_index (config pdf)) as [poi|] eqn:Hpoi.
    + destruct (fixed_poi_fit_run v data pdf ip fp kw w poi Hpoi)
        as (fl & gl & li' & lf' & _ & _ & _ & _ & _ & _ & E).
      rewrite !E.
      destruct (decide (poi < length _)); [|reflexivity].
      destruct (decide (poi < length _)); [|reflexivity].
      apply fit_falsy_bounds. exact Hb.
    + unfold fixed_poi_fit. rewrite Hpoi. reflexivity.
  - intros Hf. unfold fixed_poi_fit.
    destruct (poi_index (config pdf)); [|reflexivity].
    apply bind_same_rest. intros l1 w1 E1.
    destruct (or_else_floats ip (suggested_init (config pdf)) w)
      as (l' & fl & E1' & _ & _).
    rewrite E1' in E1. injection E1 as -> <-.
    apply bind_same_rest. intros l2 w2 E2.
    unfold unpack, bind, read, new_list in E2. cbn in E2.
    injection E2 as <- <-.
    apply bind_same_start, or_else_falsy. exact Hf.
Qed.

(** C7: an argument that is a list without elements is falsy, so
    [arg or default()] takes the model's default.  For each of [init_pars],
    [par_bounds] and [fixed_params] on its own, whatever the other two are:
    a call of [fit] or of [fixed_poi_fit] with a reference to an empty list
    does what the call without the argument does, result and world alike;
    [fit] validates and fits on the model's suggested list for it, the
    other two resolved as they are; and [fixed_poi_fit], with a POI within
    the resolved lists, on the model's suggested list with the POI
    pinned. *)
Theorem falsy_argument_is_default v data pdf ip pb fp kw w l :
  let inits := or_value (float_lists (store w)) ip
                        (suggested_init (config pdf)) in
  let bnds := or_value (bound_lists (store w)) pb
                       (suggested_bounds (config pdf)) in
  let fixeds := or_value (flag_lists (store w)) fp
                         (suggested_fixed (config pdf)) in
  let fit_on data pdf arg1 arg2 arg3 (i : list float) (b : list bound)
             (f : list bool) :=
    exists li lb lf h1,
      fit opt data pdf arg1 arg2 arg3 kw w
      = fit_resolved opt data pdf li lb lf kw (mkWorld h1 (calls w))
      /\ float_lists h1 !! li = Some i
      /\ bound_lists h1 !! lb = Some b
      /\ flag_lists h1 !! lf = Some f
      /\ preserved (store w) h1 in
  let fixed_poi_fit_on data pdf arg1 arg2 arg3 (i : list float)
                       (b : list bound) (f : list bool) :=
    forall poi,
      poi_index (config pdf) = Some poi ->
      poi < length i -> poi < length f ->
      exists li lb lf h1,
        fixed_poi_fit opt v data pdf arg1 arg2 arg3 kw w
        = fit_resolved opt data pdf li lb lf kw (mkWorld h1 (calls w))
        /\ float_lists h1 !! li = Some (<[poi := v]> i)
        /\ bound_lists h1 !! lb = Some b
        /\ flag_lists h1 !! lf = Some (<[poi := true]> f)
        /\ preserved (store w) h1 in
  (float_lists (store w) !! l = Some [] ->
   fit opt data pdf (Some l) pb fp kw w = fit opt data pdf None pb fp kw w
   /\ fixed_poi_fit opt v data pdf (Some l) pb fp kw w
      = fixed_poi_fit opt v data pdf None pb fp kw w
   /\ fit_on data pdf (Some l) pb fp
             (suggested_init (config pdf)) bnds fixeds
   /\ fixed_poi_fit_on data pdf (Some l) pb fp
                       (suggested_init (config pdf)) bnds fixeds)
  /\ (bound_lists (store w) !! l = Some [] ->
      fit opt data pdf ip (Some l) fp kw w = fit opt data pdf ip None fp kw w
      /\ fixed_poi_fit opt v data pdf ip (Some l) fp kw w
         = fixed_poi_fit opt v data pdf ip None fp kw w
      /\ fit_on data pdf ip (Some l) fp
                inits (suggested_bounds (config pdf)) fixeds
      /\ fixed_poi_fit_on data pdf ip (Some l) fp
                          inits (suggested_bounds (config pdf)) fixeds)
  /\ (flag_lists (store w) !! l = Some [] ->
      fit opt data pdf ip pb (Some l) kw w = fit opt data pdf ip pb None kw w
      /\ fixed_poi_fit opt v data pdf ip pb (Some l) kw w
         = fixed_poi_fit opt v data pdf ip pb None kw w
      /\ fit_on data pdf ip pb (Some l)
                inits bnds (suggested_fixed (config pdf))
      /\ fixed_poi_fit_on data pdf ip pb (Some l)
                          inits bnds (suggested_fixed (config pdf))).
Proof.
  intros inits bnds fixeds fit_on fixed_poi_fit_on.
  assert (FIT : forall a1 a2 a3,
    fit_on data pdf a1 a2 a3
      (or_value (float_lists (store w)) a1 (suggested_init (config pdf)))
      (or_value (bound_lists (store w)) a2 (suggested_bounds (config pdf)))
      (or_value (flag_lists (store w)) a3 (suggested_fixed (config pdf)))).
  { intros a1 a2 a3.
    destruct (fit_run data pdf a1 a2 a3 kw w)
      as (li & lb & lf & h1 & E & Hi & Hb & Hf & P).
    exists li, lb, lf, h1. auto. }
  assert (FPF : forall a1 a2 a3,
    fixed_poi_fit_on data pdf a1 a2 a3
      (or_value (float_lists (store w)) a1 (suggested_init (config pdf)))
      (or_value (bound_lists (store w)) a2 (suggested_bounds (config pdf)))
      (or_value (flag_lists (store w)) a3 (suggested_fixed (config pdf)))).
  { intros a1 a2 a3 poi Hpoi Hi Hf.
    destruct (fixed_poi_fit_resolved v data pdf a1 a2 a3 kw w poi Hpoi Hi Hf)
      as (li & lb & lf & h1 & E & Hli & Hlb & Hlf & P & _).
    exists li, lb, lf, h1. auto. }
  destruct (fixed_poi_fit_falsy v data pdf ip pb fp kw w l) as (Q1 & Q2 & Q3).
  split; [|split].
  - intros H. split; [apply fit_falsy_init, H|]. split; [apply Q1, H|].
    specialize (FIT (Some l) pb fp). specialize (FPF (Some l) pb fp).
    rewrite (or_value_empty _ _ _ H) in FIT, FPF. split; assumption.
  - intros H. split; [apply fit_falsy_bounds, H|]. split; [apply Q2, H|].
    specialize (FIT ip (Some l) fp). specialize (FPF ip (Some l) fp).
    rewrite (or_value_empty _ _ _ H) in FIT, FPF. split; assumption.
  - intros H. split; [apply fit_falsy_fixed, H|]. split; [apply Q3, H|].
    specialize (FIT ip pb (Some l)). specialize (FPF ip pb (Some l)).
    rewrite (or_value_empty _ _ _ H) in FIT, FPF. split; assumption.
Qed.

End Facts.

(** ** The small instance at work *)

Example toy_twice_nll :
  twice_nll [1; 1; 1]%float toy_data toy_model caller_heap
  = (Return [(-200)%float], caller_heap).
Proof. reflexivity. Qed.

Example toy_fit_runs :
  (fit toy_minimize toy_data toy_model (Some 0) (Some 0) (Some 0) true
       (mkWorld caller_heap [])).1
  = Return (BestFitAndVal [0.5; 1; 1]%float [(-149)%float]).
Proof. reflexivity. Qed.

Example toy_fit_fixed_vals :
  c_fixed_vals <$>
    calls (fit toy_minimize toy_data toy_model (Some 0) (Some 0) (Some 0)
               true (mkWorld caller_heap [])).2
  = [[(1, 1%float)]].
Proof. reflexivity. Qed.

Example toy_fit_rejects :
  (fit toy_minimize toy_data toy_model (Some 0) (Some 0) (Some 0) false
       (mkWorld bad_heap [])).1
  = Raise (ValueError 1 11%float (0, 10)%float).
Proof. reflexivity. Qed.

Example toy_fixed_poi_fit_runs :
  fixed_poi_fit toy_minimize 2.5%float toy_data toy_model
                (Some 0) (Some 0) (Some 0) false (mkWorld caller_heap [])
  = (Return (BestFit [2.5; 1; 1]%float),
     mkWorld
       (mkHeap [[0.5; 1; 1]; [2.5; 1; 1]]%float
               [[(0, 10); (0, 10); (0, 10)]%float]
               [[false; true; false]; [true; true; false]])
       [mkCall twice_nll toy_data toy_model 1 0
               [(0, 2.5%float); (1, 1%float)] false
               (mkHeap [[0.5; 1; 1]; [2.5; 1; 1]]%float
                       [[(0, 10); (0, 10); (0, 10)]%float]
                       [[false; true; false]; [true; true; false]])]).
Proof. reflexivity. Qed.

(** No argument: the three lists are the model's, made for the call. *)
Example toy_fit_defaults :
  fit toy_minimize toy_data toy_model None None None false
      (mkWorld (mkHeap [] [] []) [])
  = (Return (BestFit [1; 1; 1]%float),
     mkWorld
       (mkHeap [[1; 1; 1]%float] [[(0, 10); (0, 10); (0, 10)]%float]
               [[false; false; false]])
       [mkCall twice_nll toy_data toy_model 0 0 [] false
               (mkHeap [[1; 1; 1]%float] [[(0, 10); (0, 10); (0, 10)]%float]
                       [[false; false; false]])]).
Proof. reflexivity. Qed.

(** [zip] stops at the shorter list: a value without a bound is not looked
    at. *)
Example toy_fit_value_without_bound :
  (fit toy_minimize toy_data toy_model (Some 0) (Some 0) None false
       (mkWorld (mkHeap [[0.5; 1; 99]%float] [[(0, 10); (0, 10)]%float] [])
                [])).1
  = Return (BestFit [0.5; 1; 99]%float).
Proof. reflexivity. Qed.

(** A value that is not a number is within no bound. *)
Example toy_fit_nan :
  (fit toy_minimize toy_data toy_model (Some 0) None None false
       (mkWorld (mkHeap [[0.5; nan; 1]%float] [] []) [])).1
  = Raise (ValueError 1 nan (0, 10)%float).
Proof. reflexivity. Qed.

(** A POI index beyond a caller's list is an [IndexError]. *)
Example toy_fixed_poi_fit_short_list :
  (fixed_poi_fit toy_minimize 2.5%float toy_data
     (mkModel (logpdf toy_model)
              (mkConfig [1; 1; 1]%float [(0, 10); (0, 10); (0, 10)]%float
                        [false; false; false] (Some 3)))
     (Some 0) (Some 0) (Some 0) false (mkWorld caller_heap [])).1
  = Raise IndexError.
Proof. reflexivity. Qed.

Lemma toy_keeps_lists kw : keeps_lists toy_minimize toy_data toy_model kw.
Proof. intros li lb fv h. destruct kw; apply preserved_refl. Qed.

Lemma toy_holds_fixed : holds_fixed toy_minimize.
Proof.
  intros obj data pdf li lb fv kw h r h' E Hfv i x Hin.
  unfold toy_minimize in E. destruct kw.
  - destruct (obj _ data pdf h) as [[t|e] h'']; [|discriminate].
    injection E as <- _. apply Hfv, Hin.
  - injection E as <- _. apply Hfv, Hin.
Qed.

(** ** The theorems at the small instance *)

(** The second and the third initial value are out of bounds: the error is
    for the second. *)
Lemma fit_rejects_out_of_bounds_witness :
  exists i0 v0 b0 w',
    fit toy_minimize toy_data toy_model (Some 0) (Some 0) (Some 0) false
        (mkWorld bad_heap [])
    = (Raise (ValueError i0 v0 b0), w')
    /\ i0 <= 2 /\ calls w' = [].
Proof.
  destruct (fit_rejects_out_of_bounds toy_minimize toy_data toy_model
              (Some 0) (Some 0) (Some 0) false (mkWorld bad_heap [])
              2 (-1)%float (0, 10)%float eq_refl eq_refl eq_refl)
    as (i0 & v0 & b0 & w' & E & _ & _ & _ & Hle & _ & Hc & _).
  exists i0, v0, b0, w'. split; [exact E|]. split; [exact Hle|exact Hc].
Defined.

Lemma fixed_poi_fit_pins_poi_witness :
  exists r w',
    fixed_poi_fit toy_minimize 2.5%float toy_data toy_model
                  (Some 0) (Some 0) (Some 0) false (mkWorld caller_heap [])
    = (Return r, w')
    /\ bestfit r !! 0 = Some 2.5%float.
Proof.
  eexists _, _. split; [vm_compute; reflexivity|].
  assert (H0 : 0 < 3) by lia.
  apply (proj2 (fixed_poi_fit_pins_poi toy_minimize 2.5%float toy_data
                  toy_model (Some 0) (Some 0) (Some 0) false
                  (mkWorld caller_heap []) 0 eq_refl H0 H0)
               _ _ eq_refl).
  exact toy_holds_fixed.
Defined.

Lemma fixed_poi_fit_needs_poi_witness :
  fixed_poi_fit toy_minimize 1%float toy_data no_poi_model
                (Some 0) (Some 0) (Some 0) false (mkWorld caller_heap [])
  = (Raise (UnspecifiedPOI
              "No POI is defined. A POI is required to fit with a fixed POI."),
     mkWorld caller_heap []).
Proof.
  apply (fixed_poi_fit_needs_poi toy_minimize). reflexivity.
Defined.

Lemma fit_is_the_optimizer_call_witness :
  (fit toy_minimize toy_data toy_model (Some 0) (Some 0) (Some 0) false
       (mkWorld caller_heap [])).1
  = Return (BestFit [0.5; 1; 1]%float).
Proof.
  destruct (fit_is_the_optimizer_call toy_minimize toy_data toy_model
              (Some 0) (Some 0) (Some 0) false (mkWorld caller_heap []))
    as (li & lb & h1 & Hli & _ & _ & E).
  - intros [|[|[|i]]] v b Hv Hb; cbn in Hv, Hb; try discriminate;
      injection Hv as <-; injection Hb as <-; reflexivity.
  - rewrite E. unfold toy_minimize. cbn [fst].
    rewrite (deref_lookup _ _ _ Hli). reflexivity.
Defined.

Lemma fixed_poi_fit_keeps_caller_lists_witness :
  preserved caller_heap
    (store (fixed_poi_fit toy_minimize 2.5%float toy_data toy_model
              (Some 0) (Some 0) (Some 0) true (mkWorld caller_heap [])).2).
Proof.
  apply (proj1 (proj2 (fixed_poi_fit_keeps_caller_lists toy_minimize
                         2.5%float toy_data toy_model (Some 0) (Some 0)
                         (Some 0) true (mkWorld caller_heap [])))).
  exact (toy_keeps_lists true).
Defined.

Lemma validation_ignores_fixed_witness :
  exists i0 v0 b0,
    rejected (fit toy_minimize toy_data toy_model (Some 0) (Some 0) None
                  false) (mkWorld bad_heap [])
    = Some (ValueError i0 v0 b0).
Proof.
  destruct (validation_ignores_fixed toy_minimize toy_data toy_model
              (Some 0) (Some 0) (Some 0) None false (mkWorld bad_heap []))
    as [Heq Hrej].
  destruct (Hrej 1 11%float (0, 10)%float eq_refl eq_refl eq_refl eq_refl)
    as (i0 & v0 & b0 & E).
  exists i0, v0, b0. rewrite <- Heq. exact E.
Defined.

(** ** More of the small instance *)

(** [fit] hands the caller's list to an optimizer that works in place, and
    the caller finds zeros; [fixed_poi_fit] hands it a copy. *)
Example in_place_fit :
  float_lists
    (store (fit in_place_minimize toy_data toy_model (Some 0) (Some 0)
                (Some 0) false (mkWorld caller_heap [])).2)
  = [[0; 0; 0]%float].
Proof. reflexivity. Qed.

Example in_place_fixed_poi_fit :
  float_lists
    (store (fixed_poi_fit in_place_minimize 2.5%float toy_data toy_model
              (Some 0) (Some 0) (Some 0) false (mkWorld caller_heap [])).2)
  = [[0.5; 1; 1]; [0; 0; 0]]%float.
Proof. reflexivity. Qed.

(** Going through the indices of lists of three entries. *)
Ltac three_entries :=
  intros [|[|[|?]]]; cbn; intros; simplify_eq;
  try reflexivity; try contradiction.

Lemma fit_by_reference_witness :
  fit in_place_minimize toy_data toy_model (Some 0) (Some 0) (Some 0) false
      (mkWorld caller_heap [])
  = (Return (BestFit [0.5; 1; 1]%float),
     mkWorld (mkHeap [[0; 0; 0]%float] (bound_lists caller_heap)
                     (flag_lists caller_heap))
             [mkCall twice_nll toy_data toy_model 0 0 [(1, 1%float)] false
                     caller_heap]).
Proof.
  apply (fit_by_reference in_place_minimize toy_data toy_model 0 0 0 false
           (mkWorld caller_heap [])
           0.5%float [1; 1]%float (0, 10)%float [(0, 10); (0, 10)]%float
           false [true; false] eq_refl eq_refl eq_refl).
  three_entries.
Defined.

Lemma fit_fixed_vals_within_bounds_witness :
  within (0, 10)%float 1%float = true.
Proof.
  apply (fit_fixed_vals_within_bounds toy_minimize toy_data toy_model
           (Some 0) (Some 0) (Some 0) false (mkWorld caller_heap [])
           (mkCall twice_nll toy_data toy_model 0 0 [(1, 1%float)] false
                   caller_heap)
           1 1%float (0, 10)%float eq_refl).
  - cbn. constructor.
  - reflexivity.
Defined.

Lemma fixed_poi_fit_rejects_poi_value_witness :
  exists w',
    fixed_poi_fit toy_minimize 11%float toy_data toy_model
                  (Some 0) (Some 0) (Some 0) false (mkWorld caller_heap [])
    = (Raise (ValueError 0 11%float (0, 10)%float), w')
    /\ calls w' = [].
Proof.
  assert (H0 : 0 < 3) by lia.
  destruct (fixed_poi_fit_rejects_poi_value toy_minimize 11%float toy_data
              toy_model (Some 0) (Some 0) (Some 0) false
              (mkWorld caller_heap []) 0 (0, 10)%float
              eq_refl H0 H0 eq_refl eq_refl)
    as (i0 & v0 & b0 & w' & E & _ & Hc & _ & Hat).
  destruct Hat as (-> & -> & ->); [intros j vj bj Hj; lia|].
  exists w'. split; [exact E|exact Hc].
Defined.

Lemma fixed_poi_fit_index_error_witness :
  (fixed_poi_fit toy_minimize 2.5%float toy_data far_poi_model
                 (Some 0) (Some 0) (Some 0) false
                 (mkWorld caller_heap [])).1
  = Raise IndexError.
Proof.
  destruct (fixed_poi_fit_index_error toy_minimize 2.5%float toy_data
              far_poi_model (Some 0) (Some 0) (Some 0) false
              (mkWorld caller_heap []) 3 eq_refl)
    as (w' & -> & _).
  - left. cbn. lia.
  - reflexivity.
Defined.

(** The caller's value at the POI index, 99, is outside its bound. *)
Lemma fixed_poi_fit_validates_pinned_value_witness :
  exists li lb h1,
    float_lists h1 !! li = Some [2.5; 1; 1]%float
    /\ (fixed_poi_fit toy_minimize 2.5%float toy_data toy_model
           (Some 0) (Some 0) (Some 0) false
           (mkWorld (mkHeap [[99; 1; 1]%float] (bound_lists caller_heap)
                            (flag_lists caller_heap)) [])).1
       = (toy_minimize twice_nll toy_data toy_model li lb
            [(0, 2.5%float); (1, 1%float)] false h1).1.
Proof.
  assert (H0 : 0 < 3) by lia.
  destruct (fixed_poi_fit_validates_pinned_value toy_minimize 2.5%float
              toy_data toy_model (Some 0) (Some 0) (Some 0) false
              (mkWorld (mkHeap [[99; 1; 1]%float] (bound_lists caller_heap)
                               (flag_lists caller_heap)) [])
              0 eq_refl H0 H0)
    as (li & lb & h1 & Hli & _ & E).
  - three_entries.
  - cbn. intros b Hb. simplify_eq. reflexivity.
  - exists li, lb, h1. split; [exact Hli|]. rewrite E. reflexivity.
Defined.

Lemma fixed_poi_fit_fixed_vals_witness :
  (0, 2.5%float) ∈ c_fixed_vals pinned_call
  /\ (1, 1%float) ∈ c_fixed_vals pinned_call.
Proof.
  assert (H0 : 0 < 3) by lia.
  pose proof (fixed_poi_fit_fixed_vals toy_minimize 2.5%float toy_data
                toy_model (Some 0) (Some 0) (Some 0) false
                (mkWorld caller_heap []) 0 pinned_call
                eq_refl H0 H0 eq_refl) as H.
  split.
  - apply H. left. split; reflexivity.
  - apply H. right. split; [lia|]. split; reflexivity.
Defined.

Lemma fixed_poi_fit_call_references_witness :
  c_par_bounds pinned_call = 0
  /\ length (float_lists caller_heap) <= c_init_pars pinned_call.
Proof.
  assert (H0 : 0 < 3) by lia.
  destruct (fixed_poi_fit_call_references toy_minimize 2.5%float toy_data
              toy_model (Some 0) 0 (0, 10)%float [(0, 10); (0, 10)]%float
              (Some 0) false (mkWorld caller_heap []) 0 pinned_call
              eq_refl H0 H0 eq_refl eq_refl)
    as (Hb & _ & Hi & _).
  split; [exact Hb|exact Hi].
Defined.

Lemma fit_rejects_nan_witness :
  exists i0 v0 b0 w',
    fit toy_minimize toy_data toy_model (Some 0) None None false
        (mkWorld (mkHeap [[0.5; nan; 1]%float] [] []) [])
    = (Raise (ValueError i0 v0 b0), w')
    /\ i0 <= 1 /\ calls w' = [].
Proof.
  apply (fit_rejects_nan toy_minimize toy_data toy_model (Some 0) None None
           false (mkWorld (mkHeap [[0.5; nan; 1]%float] [] []) [])
           1 nan (0, 10)%float eq_refl eq_refl).
  left. reflexivity.
Defined.

Lemma fit_rejects_inverted_bound_witness :
  exists i0 v0 b0 w',
    fit toy_minimize toy_data toy_model None (Some 0) None false
        (mkWorld (mkHeap [] [[(0, 10); (10, 0); (0, 10)]%float] []) [])
    = (Raise (ValueError i0 v0 b0), w')
    /\ i0 <= 1 /\ calls w' = [].
Proof.
  apply (fit_rejects_inverted_bound toy_minimize toy_data toy_model None
           (Some 0) None false
           (mkWorld (mkHeap [] [[(0, 10); (10, 0); (0, 10)]%float] []) [])
           1 1%float (10, 0)%float eq_refl eq_refl eq_refl).
Defined.

Lemma fixed_poi_fit_rejects_nan_witness :
  exists i0 v0 b0 w',
    fixed_poi_fit toy_minimize nan toy_data toy_model None None None false
                  (mkWorld (mkHeap [] [] []) [])
    = (Raise (ValueError i0 v0 b0), w')
    /\ i0 <= 0 /\ calls w' = [].
Proof.
  assert (H0 : 0 < 3) by lia.
  apply (fixed_poi_fit_rejects_nan toy_minimize toy_data toy_model None None
           None false (mkWorld (mkHeap [] [] []) []) 0 (0, 10)%float
           eq_refl H0 H0 eq_refl).
Defined.

Lemma fixed_vals_all_true_witness :
  fixed_vals_of [0.5; 1]%float (replicate 3 true)
  = [(0, 0.5%float); (1, 1%float)].
Proof.
  assert (H : length [0.5; 1]%float <= 3) by (cbn; lia).
  exact (proj1 (fixed_vals_all_true [0.5; 1]%float 3 H)).
Defined.

(** The caller's mask fixes the second parameter. *)
Lemma fixed_vals_are_the_fixed_pairs_witness :
  exists c,
    calls (fit toy_minimize toy_data toy_model (Some 0) (Some 0) (Some 0)
               false (mkWorld caller_heap [])).2 = [c]
    /\ c_fixed_vals c = [(1, 1%float)].
Proof.
  destruct (fixed_vals_are_the_fixed_pairs toy_minimize toy_data toy_model
              (Some 0) (Some 0) (Some 0) false (mkWorld caller_heap []))
    as (c & Hc & Hp & _).
  - three_entries.
  - exists c. split; [exact Hc|]. rewrite Hp. reflexivity.
Defined.

(** One empty list at a time, beside two lists of the caller's that are
    used as they are: the empty one gives way to the model's. *)
Lemma falsy_argument_is_default_witness :
  (exists li lb lf h1,
      fit toy_minimize toy_data toy_model (Some 0) (Some 0) (Some 0) false
          (mkWorld empty_init_heap [])
      = fit_resolved toy_minimize toy_data toy_model li lb lf false
                     (mkWorld h1 [])
      /\ float_lists h1 !! li = Some [1; 1; 1]%float
      /\ flag_lists h1 !! lf = Some [false; true; false])
  /\ (exists li lb lf h1,
        fit toy_minimize toy_data toy_model (Some 0) (Some 0) (Some 0) false
            (mkWorld empty_bounds_heap [])
        = fit_resolved toy_minimize toy_data toy_model li lb lf false
                       (mkWorld h1 [])
        /\ float_lists h1 !! li = Some [0.5; 1; 1]%float
        /\ bound_lists h1 !! lb = Some [(0, 10); (0, 10); (0, 10)]%float)
  /\ (exists li lb lf h1,
        fixed_poi_fit toy_minimize 2.5%float toy_data toy_model
                      (Some 0) (Some 0) (Some 0) false
                      (mkWorld empty_fixed_heap [])
        = fit_resolved toy_minimize toy_data toy_model li lb lf false
                       (mkWorld h1 [])
        /\ float_lists h1 !! li = Some [2.5; 1; 1]%float
        /\ flag_lists h1 !! lf = Some [true; false; false]).
Proof.
  assert (H0 : 0 < 3) by lia.
  split; [|split].
  - pose proof (falsy_argument_is_default toy_minimize 2.5%float toy_data
                  toy_model (Some 0) (Some 0) (Some 0) false
                  (mkWorld empty_init_heap []) 0) as H.
    cbv zeta in H. destruct H as (H & _ & _).
    destruct (H eq_refl)
      as (_ & _ & (li & lb & lf & h1 & E & Hi & _ & Hf & _) & _).
    exists li, lb, lf, h1. split; [exact E|]. split; [exact Hi|exact Hf].
  - pose proof (falsy_argument_is_default toy_minimize 2.5%float toy_data
                  toy_model (Some 0) (Some 0) (Some 0) false
                  (mkWorld empty_bounds_heap []) 0) as H.
    cbv zeta in H. destruct H as (_ & H & _).
    destruct (H eq_refl)
      as (_ & _ & (li & lb & lf & h1 & E & Hi & Hb & _) & _).
    exists li, lb, lf, h1. split; [exact E|]. split; [exact Hi|exact Hb].
  - pose proof (falsy_argument_is_default toy_minimize 2.5%float toy_data
                  toy_model (Some 0) (Some 0) (Some 0) false
                  (mkWorld empty_fixed_heap []) 0) as H.
    cbv zeta in H. destruct H as (_ & _ & H).
    destruct (H eq_refl) as (_ & _ & _ & FP).
    destruct (FP 0 eq_refl H0 H0)
      as (li & lb & lf & h1 & E & Hi & _ & Hf & _).
    exists li, lb, lf, h1. split; [exact E|]. split; [exact Hi|exact Hf].
Defined.
